(** * singbox-rules: the rule-list parser of [main.py]

    A shallow embedding of [_strip_comment], [parse_clash_or_plain],
    [build_ruleset_json] and [main], with the properties of the
    classification engine and of the run proved about it.

    Python's [str] is a sequence of Unicode code points: a character is
    a code point in [N], a string a list of them.  Exceptions are
    explicit: every operation that can raise returns a [result]. *)

From Stdlib Require Import List NArith ZArith Bool Lia.
From Stdlib Require Import Sorting.Sorted Sorting.Permutation.
From Stdlib Require Ascii String.
Import ListNotations String.StringSyntax.

Local Open Scope string_scope.
Local Open Scope Z_scope.

(** ** Strings *)

Module Str.

Definition char := N.
Definition str := list char.

(** A literal of the source, as a list of code points. *)
Definition lit (s : String.string) : str :=
  map Ascii.N_of_ascii (String.list_ascii_of_string s).

Definition eqb (a b : str) : bool :=
  if list_eq_dec N.eq_dec a b then true else false.

(** [len(s)] *)
Definition len (s : str) : Z := Z.of_nat (length s).

(** The characters [str.strip()] removes: CPython's
    [_PyUnicode_IsWhitespace]. *)
Definition isspace (c : char) : bool :=
  ((9 <=? c) && (c <=? 13) || (28 <=? c) && (c <=? 32)
   || (c =? 133) || (c =? 160) || (c =? 5760)
   || (8192 <=? c) && (c <=? 8202)
   || (c =? 8232) || (c =? 8233) || (c =? 8239) || (c =? 8287)
   || (c =? 12288))%N.

Fixpoint lstrip (s : str) : str :=
  match s with
  | [] => []
  | c :: t => if isspace c then lstrip t else s
  end.

Definition rstrip (s : str) : str := rev (lstrip (rev s)).

(** [s.strip()] *)
Definition strip (s : str) : str := rstrip (lstrip s).

(** [s.startswith(p)] *)
Fixpoint startswith (s p : str) {struct p} : bool :=
  match p, s with
  | [], _ => true
  | _ :: _, [] => false
  | a :: p', b :: s' => (a =? b)%N && startswith s' p'
  end.

(** Index of the first occurrence of [sub] in [s], if there is one. *)
Fixpoint index_of (sub s : str) : option nat :=
  if startswith s sub then Some O
  else match s with
       | [] => None
       | _ :: t => option_map S (index_of sub t)
       end.

(** [s.find(sub)]: the first index, or -1. *)
Definition find (s sub : str) : Z :=
  match index_of sub s with
  | Some i => Z.of_nat i
  | None => -1
  end.

(** [sub in s] *)
Definition contains (sub s : str) : bool :=
  match index_of sub s with Some _ => true | None => false end.

(** [s[:i]], with Python's reading of a negative bound. *)
Definition slice_to (s : str) (i : Z) : str :=
  if i <? 0 then firstn (Z.to_nat (len s + i)) s
  else firstn (Z.to_nat i) s.

(** [s.split(sep)] for a separator of one character. *)
Fixpoint split (s : str) (sep : char) : list str :=
  match s with
  | [] => [[]]
  | c :: t =>
      if (c =? sep)%N then [] :: split t sep
      else match split t sep with
           | h :: r => (c :: h) :: r
           | [] => [[c]]
           end
  end.

(** The line boundaries of [str.splitlines()], CR LF apart. *)
Definition is_linebreak (c : char) : bool :=
  ((c =? 10) || (c =? 11) || (c =? 12) || (c =? 13)
   || (c =? 28) || (c =? 29) || (c =? 30) || (c =? 133)
   || (c =? 8232) || (c =? 8233))%N.

(** [cur] is the line being read, last character first. *)
Fixpoint splitlines_from (cur s : str) : list str :=
  match s with
  | [] => match cur with [] => [] | _ => [rev cur] end
  | c :: t =>
      if (c =? 13)%N then
        match t with
        | 10%N :: t' => rev cur :: splitlines_from [] t'
        | _ => rev cur :: splitlines_from [] t
        end
      else if is_linebreak c then rev cur :: splitlines_from [] t
      else splitlines_from (c :: cur) t
  end.

(** [s.splitlines()] *)
Definition splitlines (s : str) : list str := splitlines_from [] s.

(** Code-point order, the order of [<] on [str]. *)
Fixpoint compare (a b : str) : comparison :=
  match a, b with
  | [], [] => Eq
  | [], _ :: _ => Lt
  | _ :: _, [] => Gt
  | x :: a', y :: b' =>
      match (x ?= y)%N with
      | Eq => compare a' b'
      | c => c
      end
  end.

Definition leb (a b : str) : bool :=
  match compare a b with Gt => false | _ => true end.

Definition lt (a b : str) : Prop := compare a b = Lt.

Definition le (a b : str) : Prop := leb a b = true.

Definition space : char := 32%N.
Definition comma : char := 44%N.
Definition dot : char := 46%N.
Definition slash : char := 47%N.

End Str.

Import Str.


(** ** Exceptions *)

Inductive exn := IndexError | KeyError | ValueError | ParseError | OtherError.

Inductive result (A : Type) :=
| Ok (a : A)
| Raise (e : exn).

Arguments Ok {A} a.
Arguments Raise {A} e.

Definition bind {A B} (m : result A) (f : A -> result B) : result B :=
  match m with
  | Ok a => f a
  | Raise e => Raise e
  end.

Notation "x <- m ;; k" := (bind m (fun x => k))
  (at level 61, m at next level, right associativity).

(** [try: m / except Exception: h]; every [exn] is an [Exception]. *)
Definition try_except {A} (m : result A) (h : result A) : result A :=
  match m with
  | Ok a => Ok a
  | Raise _ => h
  end.

(** [xs[i]] for [i >= 0]. *)
Definition getitem {A} (xs : list A) (i : nat) : result A :=
  match nth_error xs i with
  | Some x => Ok x
  | None => Raise IndexError
  end.

(** ** The objects [yaml.safe_load] builds *)

#[local] Unset Elimination Schemes.

Inductive pyobj :=
| PyStr (s : str)
| PyInt (z : Z)
| PyList (items : list pyobj)
| PyDict (items : list (pyobj * pyobj))
| PySet (items : list pyobj)
| PyAtom (text : str).
(** [PyAtom]: [None], a bool, a float, bytes, a date; [text] is what
    [str()] gives for it, which does not raise. *)

(** The values [json.dump] is given. *)
Inductive json :=
| JInt (z : Z)
| JStr (s : str)
| JList (items : list json)
| JDict (items : list (str * json)).

#[local] Set Elimination Schemes.

(** [k == key] for a [str] [k]: only an equal [str] is equal to it. *)
Definition key_is (k : str) (key : pyobj) : bool :=
  match key with
  | PyStr s => Str.eqb s k
  | _ => false
  end.

(** [k in d] *)
Definition dict_contains (d : list (pyobj * pyobj)) (k : str) : bool :=
  existsb (fun kv => key_is k (fst kv)) d.

(** [d[k]] *)
Definition dict_getitem (d : list (pyobj * pyobj)) (k : str)
  : result pyobj :=
  match List.find (fun kv => key_is k (fst kv)) d with
  | Some kv => Ok (snd kv)
  | None => Raise KeyError
  end.

(** What the program takes from its libraries and from Unicode's
    tables: the YAML loader, [str()] of a list, dict or set (which
    raises when the text of a member cannot be made), the upper-case
    mapping and the decimal digits outside ASCII. *)
Class Runtime := {
  safe_load : str -> result pyobj;
  container_str : pyobj -> result str;
  upper_other : char -> str;
  decimal_other : char -> bool
}.

(** *** [str()] of an integer *)

Fixpoint digits_of_uint (u : Decimal.uint) : str :=
  match u with
  | Decimal.Nil => []
  | Decimal.D0 u => 48%N :: digits_of_uint u
  | Decimal.D1 u => 49%N :: digits_of_uint u
  | Decimal.D2 u => 50%N :: digits_of_uint u
  | Decimal.D3 u => 51%N :: digits_of_uint u
  | Decimal.D4 u => 52%N :: digits_of_uint u
  | Decimal.D5 u => 53%N :: digits_of_uint u
  | Decimal.D6 u => 54%N :: digits_of_uint u
  | Decimal.D7 u => 55%N :: digits_of_uint u
  | Decimal.D8 u => 56%N :: digits_of_uint u
  | Decimal.D9 u => 57%N :: digits_of_uint u
  end.

(** The decimal digits of the absolute value. *)
Definition int_digits (z : Z) : str :=
  digits_of_uint (N.to_uint (Z.abs_N z)).

(** [sys.get_int_max_str_digits()], as CPython 3.11 sets it. *)
Definition int_max_str_digits : nat := 4300.

(** [str(z)]: [ValueError] for more digits than the limit. *)
Definition int_str (z : Z) : result str :=
  if (int_max_str_digits <? length (int_digits z))%nat
  then Raise ValueError
  else Ok (if z <? 0 then 45%N :: int_digits z else int_digits z).

Section Parser.

Context {rt : Runtime}.

(** [str(x)] *)
Definition py_str (x : pyobj) : result str :=
  match x with
  | PyStr s => Ok s
  | PyInt z => int_str z
  | PyAtom t => Ok t
  | _ => container_str x
  end.

Definition upper_char (c : char) : str :=
  if ((97 <=? c) && (c <=? 122))%N then [(c - 32)%N]
  else if (c <? 128)%N then [c]
  else upper_other c.

(** [s.upper()] *)
Definition upper (s : str) : str := flat_map upper_char s.

(** [\d] of a [str] pattern. *)
Definition is_digit (c : char) : bool :=
  if (c <? 128)%N then ((48 <=? c) && (c <=? 57))%N
  else decimal_other c.

Fixpoint span (p : char -> bool) (s : str) : str * str :=
  match s with
  | [] => ([], [])
  | c :: t =>
      if p c then let (a, b) := span p t in (c :: a, b)
      else ([], s)
  end.

(** [\d{lo,hi}] before something that is not a digit: the whole run of
    digits, when its length fits. *)
Definition re_digits (lo hi : nat) (s : str) : option str :=
  let (d, r) := span is_digit s in
  if (lo <=? length d)%nat && (length d <=? hi)%nat then Some r
  else None.

Definition re_char (c : char) (s : str) : option str :=
  match s with
  | x :: t => if (x =? c)%N then Some t else None
  | [] => None
  end.

(** [(\.\d{1,3}){n}] *)
Fixpoint re_groups (n : nat) (s : str) : option str :=
  match n with
  | O => Some s
  | S n' =>
      match re_char dot s with
      | Some r =>
          match re_digits 1 3 r with
          | Some r' => re_groups n' r'
          | None => None
          end
      | None => None
      end
  end.

(** [$]: the end, or a last line feed. *)
Definition re_end (s : str) : bool :=
  match s with
  | [] => true
  | [10%N] => true
  | _ => false
  end.

(** [re.match(r"^\d{1,3}(\.\d{1,3}){3}/\d{1,2}$", line)] *)
Definition re_match_cidr (line : str) : bool :=
  match re_digits 1 3 line with
  | Some r1 =>
      match re_groups 3 r1 with
      | Some r2 =>
          match re_char slash r2 with
          | Some r3 =>
              match re_digits 1 2 r3 with
              | Some r4 => re_end r4
              | None => false
              end
          | None => false
          end
      | None => false
      end
  | None => false
  end.

(** *** [_strip_comment] *)

Definition comment_seps : list str := [lit " #"; lit " ;"; lit " //"].

Definition cut_at (line sep : str) : str :=
  let idx := find line sep in
  if negb (idx =? -1) then strip (slice_to line idx) else line.

Definition _strip_comment (line : str) : str :=
  let line := strip line in
  match line with
  | [] => []
  | _ => strip (fold_left cut_at comment_seps line)
  end.

(** *** [parse_clash_or_plain] *)

Inductive ClassifiedRule :=
| Domain (value : str)
| DomainSuffix (value : str)
| IPNetwork (value : str)
| Unsupported.

Record lists := mk_lists {
  domains : list str;
  suffixes : list str;
  cidrs : list str
}.

Definition no_lists : lists := mk_lists [] [] [].

(** The [append] of each branch of the loop; [Unsupported] is a
    [continue] that appends nothing. *)
Definition append_rule (acc : lists) (r : ClassifiedRule) : lists :=
  match r with
  | Domain v => mk_lists (domains acc ++ [v]) (suffixes acc) (cidrs acc)
  | DomainSuffix v => mk_lists (domains acc) (suffixes acc ++ [v]) (cidrs acc)
  | IPNetwork v => mk_lists (domains acc) (suffixes acc) (cidrs acc ++ [v])
  | Unsupported => acc
  end.

Definition member (x : str) (xs : list str) : bool :=
  existsb (Str.eqb x) xs.

Definition truthy (s : str) : bool :=
  match s with [] => false | _ => true end.

(** Lines 68-96: what the loop does with a non-empty [line]. *)
Definition classify (line : str) : result ClassifiedRule :=
  if contains (lit ",") line && negb (startswith line (lit "http")) then
    let parts := map strip (split line comma) in
    p0 <- getitem parts 0 ;;
    let rule_type := upper p0 in
    value <- (if (1 <? Z.of_nat (length parts)) then getitem parts 1
              else Ok []) ;;
    if member rule_type [lit "DOMAIN"] then
      Ok (if truthy value then Domain value else Unsupported)
    else if member rule_type [lit "DOMAIN-SUFFIX"] then
      Ok (if truthy value then DomainSuffix value else Unsupported)
    else if member rule_type [lit "IP-CIDR"; lit "IP-CIDR6"] then
      Ok (if truthy value then IPNetwork value else Unsupported)
    else Ok Unsupported
  else if re_match_cidr line then Ok (IPNetwork line)
  else if contains (lit ".") line && negb (contains (lit " ") line)
          && negb (contains (lit "/") line) then
    Ok (DomainSuffix line)
  else Ok Unsupported.

(** Lines 63-96: the loop over the entries. *)
Fixpoint classify_lines (lines : list str) (acc : lists) : result lists :=
  match lines with
  | [] => Ok acc
  | raw :: rest =>
      let line := _strip_comment raw in
      if truthy line then
        r <- classify line ;;
        classify_lines rest (append_rule acc r)
      else classify_lines rest acc
  end.

(** Lines 49-55: the payload of a Clash rule provider, if any. *)
Definition load_payload (text : str) : result (option (list pyobj)) :=
  try_except
    (y <- safe_load text ;;
     match y with
     | PyDict d =>
         if dict_contains d (lit "payload") then
           p <- dict_getitem d (lit "payload") ;;
           match p with
           | PyList items => Ok (Some items)
           | _ => Ok None
           end
         else Ok None
     | _ => Ok None
     end)
    (Ok None).

(** Line 59: [[str(x).strip() for x in payload if str(x).strip()]]. *)
Fixpoint payload_lines (payload : list pyobj) : result (list str) :=
  match payload with
  | [] => Ok []
  | x :: rest =>
      c <- py_str x ;;
      if truthy (strip c) then
        s <- py_str x ;;
        lines <- payload_lines rest ;;
        Ok (strip s :: lines)
      else payload_lines rest
  end.

(** [str()] of each element in turn, up to the first that raises. *)
Fixpoint all_str (items : list pyobj) : result (list str) :=
  match items with
  | [] => Ok []
  | x :: rest =>
      s <- py_str x ;;
      strs <- all_str rest ;;
      Ok (s :: strs)
  end.

(** Lines 57-61. *)
Definition entries (text : str) : result (list str) :=
  payload <- load_payload text ;;
  match payload with
  | Some items => payload_lines items
  | None => Ok (splitlines text)
  end.

(** [set(xs)], its members listed once each. *)
Definition py_set (xs : list str) : list str :=
  nodup (list_eq_dec N.eq_dec) xs.

Fixpoint insert_sorted (x : str) (xs : list str) : list str :=
  match xs with
  | [] => [x]
  | y :: t => if Str.leb x y then x :: xs else y :: insert_sorted x t
  end.

(** [sorted(xs)] *)
Definition sorted (xs : list str) : list str :=
  fold_right insert_sorted [] xs.

(** [sorted(set(xs))] *)
Definition canon (xs : list str) : list str := sorted (py_set xs).

(** Lines 98-102. *)
Definition dedup (acc : lists) : lists :=
  mk_lists (canon (domains acc)) (canon (suffixes acc)) (canon (cidrs acc)).

Definition parse_clash_or_plain (text : str) : result lists :=
  lines <- entries text ;;
  acc <- classify_lines lines no_lists ;;
  Ok (dedup acc).

(** [parse_clash_or_plain] returns, rather than raises. *)
Definition returns (text : str) : Prop :=
  exists r, parse_clash_or_plain text = Ok r.

(** The lists of one source, when [parse_clash_or_plain] returns. *)
Definition parsed (text : str) : lists :=
  match parse_clash_or_plain text with
  | Ok r => r
  | Raise _ => no_lists
  end.

(** *** [build_ruleset_json] *)

Definition build_ruleset_json (domains suffixes cidrs : list str) : json :=
  let rules := [] in
  let rules :=
    if negb (length domains =? 0)%nat
    then rules ++ [JDict [(lit "domain", JList (map JStr domains))]]
    else rules in
  let rules :=
    if negb (length suffixes =? 0)%nat
    then rules ++ [JDict [(lit "domain_suffix", JList (map JStr suffixes))]]
    else rules in
  let rules :=
    if negb (length cidrs =? 0)%nat
    then rules ++ [JDict [(lit "ip_cidr", JList (map JStr cidrs))]]
    else rules in
  JDict [(lit "version", JInt 3); (lit "rules", JList rules)].

(** *** The group loop of [main], lines 150-166

    [texts] are the texts [fetch] returned for the URLs of one group,
    in the order of the URLs. *)

Fixpoint merge_sources (texts : list str) (all : lists) : result lists :=
  match texts with
  | [] => Ok all
  | text :: rest =>
      r <- parse_clash_or_plain text ;;
      merge_sources rest
        (mk_lists (domains all ++ domains r)
                  (suffixes all ++ suffixes r)
                  (cidrs all ++ cidrs r))
  end.

(** Lines 150-164: the three lists written for the group. *)
Definition group_ruleset (texts : list str) : result lists :=
  all <- merge_sources texts no_lists ;;
  Ok (dedup all).

(** Lines 150-166. *)
Definition group_json (texts : list str) : result json :=
  rs <- group_ruleset texts ;;
  Ok (build_ruleset_json (domains rs) (suffixes rs) (cidrs rs)).

End Parser.

(** ** A runtime to evaluate the parser with

    The loader knows the documents below, each with the object PyYAML
    builds for it, and rejects any other text; outside ASCII it maps
    every character to itself and knows no digit. *)

Definition nl : str := [10%N].

Definition payload_doc : str :=
  lit "payload:" ++ nl ++ lit "  - DOMAIN-SUFFIX,example.com" ++ nl
  ++ lit "  - 10.0.0.0/8" ++ nl.

Definition rules_doc : str :=
  lit "rules:" ++ nl ++ lit "- DOMAIN,a.com" ++ nl.

Definition twice_doc : str :=
  lit "DOMAIN-SUFFIX,example.com" ++ nl ++ lit "DOMAIN-SUFFIX,example.com"
  ++ nl.

Definition known_docs : list (str * pyobj) :=
  [ (payload_doc,
     PyDict [(PyStr (lit "payload"),
              PyList [PyStr (lit "DOMAIN-SUFFIX,example.com");
                      PyStr (lit "10.0.0.0/8")])]);
    (rules_doc,
     PyDict [(PyStr (lit "rules"), PyList [PyStr (lit "DOMAIN,a.com")])]) ].

Definition sample_load (text : str) : result pyobj :=
  match List.find (fun d => Str.eqb (fst d) text) known_docs with
  | Some d => Ok (snd d)
  | None => Raise ParseError
  end.

Definition sample_rt : Runtime :=
  {| safe_load := sample_load;
     container_str := fun _ => Ok (lit "[]");
     upper_other := fun c => [c];
     decimal_other := fun _ => false |}.

(** A payload whose one element is an integer of 4000 hexadecimal
    digits, 4817 decimal ones, and a loader that reads it as PyYAML
    does. *)
Definition long_int_doc : str :=
  lit "payload:" ++ nl ++ lit " - 0x" ++ repeat 102%N 4000.

Definition long_int_rt : Runtime :=
  {| safe_load := fun text =>
       if Str.eqb text long_int_doc then
         Ok (PyDict [(PyStr (lit "payload"),
                      PyList [PyInt (16 ^ 4000 - 1)])])
       else sample_load text;
     container_str := fun _ => Ok (lit "[]");
     upper_other := fun c => [c];
     decimal_other := fun _ => false |}.

Definition spec_example : str :=
  lit "DOMAIN,example.com" ++ nl ++ lit "DOMAIN-SUFFIX,ads.example.net" ++ nl
  ++ lit "1.2.3.0/24" ++ nl ++ lit "plain.example.org" ++ nl
  ++ lit "DOMAIN-KEYWORD,foo" ++ nl.

(** ** The normalizer as the specification words it

    A comment starts where a character accepted by [before] is followed
    by one of the introducers; [first_token_after before s] is the
    first such place of [s]. *)

Definition comment_tokens : list str := [lit "#"; lit ";"; lit "//"].

Definition starts_comment (before : char -> bool) (s : str) : bool :=
  match s with
  | c :: r => before c && existsb (startswith r) comment_tokens
  | [] => false
  end.

Fixpoint first_token_after (before : char -> bool) (s : str)
  : option nat :=
  if starts_comment before s then Some O
  else match s with
       | [] => None
       | _ :: t => option_map S (first_token_after before t)
       end.

Definition is_space (c : char) : bool := (c =? space)%N.

(** Truncation at the first introducer that follows a character
    accepted by [before], then trimming. *)
Definition truncate_after (before : char -> bool) (raw : str) : str :=
  let s := strip raw in
  match first_token_after before s with
  | Some p => strip (firstn p s)
  | None => s
  end.

(** *** Auxiliary notions for the normalizer *)

(** First place of [s] where one of [seps] starts. *)
Fixpoint first_of (seps : list str) (s : str) : option nat :=
  if existsb (startswith s) seps then Some O
  else match s with
       | [] => None
       | _ :: t => option_map S (first_of seps t)
       end.

Definition min_opt (a b : option nat) : option nat :=
  match a, b with
  | Some x, Some y => Some (Nat.min x y)
  | Some x, None => Some x
  | None, _ => b
  end.

(** A separator made of a space and a visible, non-empty token. *)
Definition shaped (sep : str) : Prop :=
  exists tok, sep = space :: tok /\ tok <> []
              /\ Forall (fun c => isspace c = false) tok.

(** Nothing to trim on the left. *)
Definition clean (s : str) : Prop :=
  match s with
  | [] => True
  | c :: _ => isspace c = false
  end.

(** *** The pattern of a bare network, in words

    One to three digits, three times a dot and one to three digits, a
    slash, one or two digits, and nothing more but a last line feed. *)

Section Shapes.

Context {rt : Runtime}.

Definition digit_group (lo hi : nat) (d : str) : Prop :=
  Forall (fun c => is_digit c = true) d
  /\ (lo <= length d)%nat /\ (length d <= hi)%nat.

Definition cidr_shape (line : str) : Prop :=
  exists a b c d m tail,
    line = a ++ dot :: b ++ dot :: c ++ dot :: d ++ slash :: m ++ tail
    /\ digit_group 1 3 a /\ digit_group 1 3 b /\ digit_group 1 3 c
    /\ digit_group 1 3 d /\ digit_group 1 2 m
    /\ (tail = [] \/ tail = [10%N]).

(** No digit comes next. *)
Definition stops (r : str) : Prop :=
  match r with
  | [] => True
  | x :: _ => is_digit x = false
  end.

(** A value fit for the lists: not empty, nothing to trim. *)
Definition good_value (v : str) : Prop := v <> [] /\ strip v = v.

Definition lists_good (acc : lists) : Prop :=
  Forall good_value (domains acc) /\ Forall good_value (suffixes acc)
  /\ Forall good_value (cidrs acc).

Definition rule_domains (r : ClassifiedRule) : list str :=
  match r with Domain v => [v] | _ => [] end.

Definition rule_suffixes (r : ClassifiedRule) : list str :=
  match r with DomainSuffix v => [v] | _ => [] end.

Definition rule_cidrs (r : ClassifiedRule) : list str :=
  match r with IPNetwork v => [v] | _ => [] end.

(** What the loop appends for one entry. *)
Definition rule_of (raw : str) : ClassifiedRule :=
  if truthy (_strip_comment raw) then
    match classify (_strip_comment raw) with
    | Ok r => r
    | Raise _ => Unsupported
    end
  else Unsupported.

End Shapes.

(** ** [main]

    What [main] does outside the program is taken from a [World]: the
    calls that create directories, the GET of the list of sources, the
    local copy of that list, [fetch], the writing of a JSON file and
    the clock.  Each call that can raise returns a [result].  The
    [print] calls are left out. *)

Inductive failure :=
| RuntimeError
| Uncaught (e : exn).

(** The directories [main] creates: [OUT_JSON_DIR] and [ROOT/output]. *)
Inductive dir := OutJsonDir | OutputDir.

(** The files [main] writes: [name] in [OUT_JSON_DIR], and
    [ROOT/output/index.json]. *)
Inductive target :=
| OutJson (name : str)
| IndexJson.

(** One value of [meta["sets"]]. *)
Record set_meta := mk_set_meta {
  meta_json : str;
  meta_domain : Z;
  meta_domain_suffix : Z;
  meta_ip_cidr : Z;
  meta_sources : list pyobj
}.

(** [meta]; the keys of [sources] being distinct, the assignments to
    [meta["sets"]] are kept as the list of its items, in order. *)
Record meta := mk_meta {
  generated_at : Z;
  sets : list (pyobj * set_meta)
}.

(** What a file holds: the object given to [json.dump], or, when
    [json.dump] raised on it, what had been written of it by then. *)
Inductive content :=
| Ruleset (j : json)
| Index (m : meta)
| Broken (c : content).

Class World := {
  makedirs : dir -> result unit;
  get_sources : result str;
  read_local : result str;
  fetch : str -> result str;
  open_w : target -> result unit;
  dump : target -> content -> result unit;
  time_now : Z
}.
(** [get_sources]: [requests.get(SOURCES_URL, ...)], [raise_for_status]
    and [resp.text].  [read_local]: the text of [LOCAL_SOURCES_YML].
    [open_w t]: [open(path, "w")], which creates the file or empties
    it.  [dump t c]: [json.dump] of [c] into the file opened. *)

(** The files written so far, the last one last; a file written again
    replaces what it held. *)
Definition files := list (target * content).

Inductive outcome (A : Type) :=
| Done (a : A)
| Failed (f : failure).

Arguments Done {A} a.
Arguments Failed {A} f.

Definition io (A : Type) := files -> files * outcome A.

Definition io_ret {A} (a : A) : io A := fun fs => (fs, Done a).

Definition io_bind {A B} (m : io A) (k : A -> io B) : io B :=
  fun fs =>
    match m fs with
    | (fs', Done a) => k a fs'
    | (fs', Failed f) => (fs', Failed f)
    end.

Notation "x <~ m ;; k" := (io_bind m (fun x => k))
  (at level 61, m at next level, right associativity).

Definition io_fail {A} (f : failure) : io A := fun fs => (fs, Failed f).

(** A call that raises is not caught by [main]. *)
Definition lift {A} (r : result A) : io A :=
  fun fs =>
    match r with
    | Ok a => (fs, Done a)
    | Raise e => (fs, Failed (Uncaught e))
    end.

Section Main.

Context {rt : Runtime} {world : World}.

(** [with open(path, "w") as f: json.dump(c, f, ...)]: when [open]
    raises nothing is written; when [json.dump] raises the file is left
    with what had been written. *)
Definition write (t : target) (c : content) : io unit :=
  fun fs =>
    match open_w t with
    | Ok _ =>
        match dump t c with
        | Ok _ => (fs ++ [(t, c)], Done tt)
        | Raise e => (fs ++ [(t, Broken c)], Failed (Uncaught e))
        end
    | Raise e => (fs, Failed (Uncaught e))
    end.

(** Lines 129-139: the remote list, or the local one when the GET or
    the loader raises. *)
Definition load_sources : result pyobj :=
  try_except (text <- get_sources ;; safe_load text)
             (text <- read_local ;; safe_load text).

(** Lines 154-159. *)
Fixpoint fetch_all (urls : list pyobj) (all : lists) : result lists :=
  match urls with
  | [] => Ok all
  | u :: rest =>
      url <- py_str u ;;
      text <- fetch url ;;
      r <- parse_clash_or_plain text ;;
      fetch_all rest
        (mk_lists (domains all ++ domains r)
                  (suffixes all ++ suffixes r)
                  (cidrs all ++ cidrs r))
  end.

(** [f"{tag}.json"] *)
Definition file_name (tag : pyobj) : result str :=
  t <- py_str tag ;; Ok (t ++ lit ".json").

(** Lines 172-178; [name] is [f"{tag}.json"]. *)
Definition set_meta_of (name : str) (urls : list pyobj) (rs : lists)
  : set_meta :=
  {| meta_json := lit "output/json/" ++ name;
     meta_domain := Z.of_nat (length (domains rs));
     meta_domain_suffix := Z.of_nat (length (suffixes rs));
     meta_ip_cidr := Z.of_nat (length (cidrs rs));
     meta_sources := urls |}.

(** Lines 146-180: the loop over the groups. *)
Fixpoint groups_loop (items : list (pyobj * pyobj))
         (done : list (pyobj * set_meta)) : io (list (pyobj * set_meta)) :=
  match items with
  | [] => io_ret done
  | (tag, urls) :: rest =>
      match urls with
      | PyList (u :: us) =>
          all <~ lift (fetch_all (u :: us) no_lists) ;;
          let rs := dedup all in
          let j := build_ruleset_json (domains rs) (suffixes rs) (cidrs rs) in
          name <~ lift (file_name tag) ;;
          _ <~ write (OutJson name) (Ruleset j) ;;
          groups_loop rest (done ++ [(tag, set_meta_of name (u :: us) rs)])
      | _ => groups_loop rest done
      end
  end.

Definition main : io unit :=
  _ <~ lift (makedirs OutJsonDir) ;;
  sources <~ lift load_sources ;;
  match sources with
  | PyDict items =>
      done <~ groups_loop items [] ;;
      _ <~ lift (makedirs OutputDir) ;;
      write IndexJson (Index (mk_meta time_now done))
  | _ => io_fail RuntimeError
  end.

(** An item of the index and the file written for its group. *)
Definition entry_matches (e : pyobj * set_meta) (w : target * content)
  : Prop :=
  exists rs name,
    file_name (fst e) = Ok name
    /\ fst w = OutJson name
    /\ snd w = Ruleset (build_ruleset_json (domains rs) (suffixes rs)
                                           (cidrs rs))
    /\ meta_json (snd e) = lit "output/json/" ++ name
    /\ meta_domain (snd e) = Z.of_nat (length (domains rs))
    /\ meta_domain_suffix (snd e) = Z.of_nat (length (suffixes rs))
    /\ meta_ip_cidr (snd e) = Z.of_nat (length (cidrs rs))
    /\ meta_sources (snd e) <> []
    /\ StronglySorted Str.lt (domains rs)
    /\ StronglySorted Str.lt (suffixes rs)
    /\ StronglySorted Str.lt (cidrs rs).

(** [fetch(str(u))] returns [t]. *)
Definition fetched (u : pyobj) (t : str) : Prop :=
  exists url, py_str u = Ok url /\ fetch url = Ok t.

(** What a write that failed leaves last: nothing, or a broken file. *)
Definition left_broken (tail : files) : Prop :=
  tail = [] \/ exists t c, tail = [(t, Broken c)].

(** A ruleset file, whole, as opposed to the index. *)
Definition ruleset_file (w : target * content) : Prop :=
  exists name j, w = (OutJson name, Ruleset j).

(** A group [main] skips: its URLs are not a list, or an empty one. *)
Definition skipped (urls : pyobj) : Prop :=
  forall u us, urls <> PyList (u :: us).

End Main.

(** *** A world to run [main] in *)

Definition sources_doc : str :=
  lit "ads:" ++ nl ++ lit "  - u1" ++ nl ++ lit "  - u2" ++ nl
  ++ lit "none: []" ++ nl.

Definition failing_sources_doc : str :=
  lit "ads:" ++ nl ++ lit "  - u1" ++ nl ++ lit "more:" ++ nl
  ++ lit "  - u3" ++ nl.

(** More documents, each with the object PyYAML builds for it. *)
Definition main_docs : list (str * pyobj) :=
  [ (sources_doc,
     PyDict [(PyStr (lit "ads"),
              PyList [PyStr (lit "u1"); PyStr (lit "u2")]);
             (PyStr (lit "none"), PyList [])]);
    (failing_sources_doc,
     PyDict [(PyStr (lit "ads"), PyList [PyStr (lit "u1")]);
             (PyStr (lit "more"), PyList [PyStr (lit "u3")])]);
    (lit "not found", PyStr (lit "not found"));
    (lit "payload: none",
     PyDict [(PyStr (lit "payload"), PyStr (lit "none"))]) ].

Definition sample_rt_main : Runtime :=
  {| safe_load := fun text =>
       match List.find (fun d => Str.eqb (fst d) text) main_docs with
       | Some d => Ok (snd d)
       | None => sample_load text
       end;
     container_str := fun _ => Ok (lit "[]");
     upper_other := fun c => [c];
     decimal_other := fun _ => false |}.

(** The GET of the list fails and the local copy is read; [u1] and
    [u2] are served, any other URL fails. *)
Definition sample_world : World :=
  {| makedirs := fun _ => Ok tt;
     get_sources := Raise OtherError;
     read_local := Ok sources_doc;
     fetch := fun url =>
       if Str.eqb url (lit "u1") then Ok spec_example
       else if Str.eqb url (lit "u2") then Ok payload_doc
       else Raise OtherError;
     open_w := fun _ => Ok tt;
     dump := fun _ _ => Ok tt;
     time_now := 1700000000 |}.

(** The local copy names a URL that fails. *)
Definition failing_world : World :=
  {| makedirs := makedirs (World := sample_world);
     get_sources := Raise OtherError;
     read_local := Ok failing_sources_doc;
     fetch := fetch (World := sample_world);
     open_w := fun _ => Ok tt;
     dump := fun _ _ => Ok tt;
     time_now := 1700000000 |}.


(** The GET returns a page that is not a list of sources. *)
Definition remote_world : World :=
  {| makedirs := makedirs (World := sample_world);
     get_sources := Ok (lit "not found");
     read_local := Ok sources_doc;
     fetch := fetch (World := sample_world);
     open_w := fun _ => Ok tt;
     dump := fun _ _ => Ok tt;
     time_now := 1700000000 |}.

(** ** Evaluation on examples *)

Example splitlines_ex :
  splitlines (lit "a.com" ++ [13%N; 10%N] ++ lit "b.com" ++ [10%N; 10%N])
  = [lit "a.com"; lit "b.com"; []].
Proof. reflexivity. Qed.

Example split_ex :
  split (lit "DOMAIN,a.com,") comma = [lit "DOMAIN"; lit "a.com"; []].
Proof. reflexivity. Qed.

Example find_ex : find (lit "a.com # x") (lit " #") = 5.
Proof. reflexivity. Qed.

Example strip_ex : strip (lit "  a b  ") = lit "a b".
Proof. reflexivity. Qed.

Example parse_spec_example :
  parse_clash_or_plain (rt := sample_rt) spec_example
  = Ok (mk_lists [lit "example.com"]
                 [lit "ads.example.net"; lit "plain.example.org"]
                 [lit "1.2.3.0/24"]).
Proof. vm_compute. reflexivity. Qed.

Example parse_payload_doc :
  parse_clash_or_plain (rt := sample_rt) payload_doc
  = Ok (mk_lists [] [lit "example.com"] [lit "10.0.0.0/8"]).
Proof. vm_compute. reflexivity. Qed.

Example parse_rules_doc :
  parse_clash_or_plain (rt := sample_rt) rules_doc = Ok no_lists.
Proof. vm_compute. reflexivity. Qed.

Example strip_comment_ex :
  _strip_comment (lit "  a.com ; x # y // z ") = lit "a.com".
Proof. vm_compute. reflexivity. Qed.

Example main_sample :
  main (rt := sample_rt_main) (world := sample_world) []
  = ([ (OutJson (lit "ads.json"),
        Ruleset
          (JDict
             [(lit "version", JInt 3);
              (lit "rules",
               JList
                 [JDict [(lit "domain", JList [JStr (lit "example.com")])];
                  JDict [(lit "domain_suffix",
                          JList [JStr (lit "ads.example.net");
                                 JStr (lit "example.com");
                                 JStr (lit "plain.example.org")])];
                  JDict [(lit "ip_cidr",
                          JList [JStr (lit "1.2.3.0/24");
                                 JStr (lit "10.0.0.0/8")])]])]));
       (IndexJson,
        Index
          (mk_meta 1700000000
             [(PyStr (lit "ads"),
               mk_set_meta (lit "output/json/ads.json") 1 3 2
                 [PyStr (lit "u1"); PyStr (lit "u2")])])) ],
     Done tt).
Proof. vm_compute. reflexivity. Qed.

Example main_failing :
  main (rt := sample_rt_main) (world := failing_world) []
  = ([ (OutJson (lit "ads.json"),
        Ruleset
          (JDict
             [(lit "version", JInt 3);
              (lit "rules",
               JList
                 [JDict [(lit "domain", JList [JStr (lit "example.com")])];
                  JDict [(lit "domain_suffix",
                          JList [JStr (lit "ads.example.net");
                                 JStr (lit "plain.example.org")])];
                  JDict [(lit "ip_cidr",
                          JList [JStr (lit "1.2.3.0/24")])]])])) ],
     Failed (Uncaught OtherError)).
Proof. vm_compute. reflexivity. Qed.

Example strip_comment_url :
  _strip_comment (lit "http://a.com/x#y") = lit "http://a.com/x#y".
Proof. vm_compute. reflexivity. Qed.

(** ** Facts about strings *)

Section StrFacts.

Lemma eqb_eq (a b : str) : Str.eqb a b = true <-> a = b.
Proof.
  unfold Str.eqb. destruct (list_eq_dec N.eq_dec a b); split; congruence.
Qed.

Lemma eqb_refl (a : str) : Str.eqb a a = true.
Proof. now apply eqb_eq. Qed.

Lemma startswith_app (p r : str) : startswith (p ++ r) p = true.
Proof.
  induction p as [|a p IH]; simpl; [reflexivity|].
  now rewrite N.eqb_refl, IH.
Qed.

Lemma startswith_inv (s p : str) :
  startswith s p = true -> exists r, s = p ++ r.
Proof.
  revert s. induction p as [|a p IH]; intros s H.
  - now exists s.
  - destruct s as [|b s]; simpl in H; [discriminate|].
    apply andb_true_iff in H as [Hab Hs].
    apply N.eqb_eq in Hab. subst b.
    destruct (IH _ Hs) as [r ->]. now exists r.
Qed.

Lemma startswith_cons (a b : char) (s p : str) :
  startswith (b :: s) (a :: p) = ((a =? b)%N && startswith s p).
Proof. reflexivity. Qed.

Lemma startswith_nil (s : str) : startswith s [] = true.
Proof. now destruct s. Qed.

Lemma index_of_char (c : char) (s : str) :
  index_of [c] s = None <-> ~ In c s.
Proof.
  induction s as [|x s IH]; simpl.
  - intuition discriminate.
  - rewrite andb_true_r.
    destruct (N.eqb_spec c x) as [->|Hne].
    + split; [discriminate|]. intros H. exfalso. apply H. now left.
    + destruct (index_of [c] s) eqn:E; simpl.
      * split; [discriminate|]. intros H. exfalso.
        destruct IH as [_ IH].
        assert (Hin : ~ In c s) by (intros Hin; apply H; now right).
        specialize (IH Hin). discriminate.
      * split; [|reflexivity]. intros _ [Hx|Hin]; [congruence|].
        now apply (proj1 IH).
Qed.

Lemma contains_char (c : char) (s : str) :
  contains [c] s = true <-> In c s.
Proof.
  unfold contains. destruct (index_of [c] s) eqn:E.
  - split; [|reflexivity]. intros _.
    destruct (in_dec N.eq_dec c s) as [H|H]; [assumption|].
    apply index_of_char in H. congruence.
  - split; [discriminate|]. intros H.
    apply index_of_char in E. contradiction.
Qed.

Lemma contains_char_false (c : char) (s : str) :
  contains [c] s = false <-> ~ In c s.
Proof.
  rewrite <- contains_char. destruct (contains [c] s); split; congruence.
Qed.

(** *** Stripping *)

Lemma lstrip_split (s : str) :
  exists w, s = w ++ lstrip s /\ Forall (fun c => isspace c = true) w.
Proof.
  induction s as [|c s (w & IH & Hw)]; simpl.
  - exists []. now split.
  - destruct (isspace c) eqn:E.
    + exists (c :: w). split; [simpl; congruence|]. now constructor.
    + exists []. now split.
Qed.

Lemma lstrip_head (s t : str) (c : char) :
  lstrip s = c :: t -> isspace c = false.
Proof.
  induction s as [|x s IH]; simpl; [discriminate|].
  destruct (isspace x) eqn:E; [assumption|].
  intros H. now inversion H; subst.
Qed.

Lemma lstrip_snoc (a : str) (c : char) :
  lstrip (a ++ [c]) =
  match lstrip a with
  | [] => if isspace c then [] else [c]
  | l => l ++ [c]
  end.
Proof.
  induction a as [|x a IH]; simpl; [reflexivity|].
  now destruct (isspace x).
Qed.

Lemma rstrip_nil : rstrip [] = [].
Proof. reflexivity. Qed.

Lemma rstrip_cons (c : char) (t : str) :
  rstrip (c :: t) =
  match rstrip t with
  | [] => if isspace c then [] else [c]
  | r => c :: r
  end.
Proof.
  unfold rstrip. simpl. rewrite lstrip_snoc.
  destruct (lstrip (rev t)) as [|x l]; simpl.
  - now destruct (isspace c).
  - rewrite rev_app_distr. simpl.
    destruct (rev l ++ [x]) eqn:E; [|reflexivity].
    now destruct (rev l).
Qed.

Lemma rstrip_keeps_head (c : char) (t : str) :
  isspace c = false -> rstrip (c :: t) = c :: rstrip t.
Proof.
  intros H. rewrite rstrip_cons, H. now destruct (rstrip t).
Qed.

Lemma strip_keeps_head (c : char) (t : str) :
  isspace c = false -> strip (c :: t) = c :: rstrip t.
Proof.
  intros H. unfold strip. simpl. rewrite H. now apply rstrip_keeps_head.
Qed.

Lemma rstrip_idem (s : str) : rstrip (rstrip s) = rstrip s.
Proof.
  induction s as [|c s IH]; [reflexivity|].
  rewrite rstrip_cons. destruct (rstrip s) as [|x r] eqn:E.
  - destruct (isspace c) eqn:Ec; [reflexivity|].
    rewrite rstrip_cons, Ec. reflexivity.
  - rewrite rstrip_cons, IH. reflexivity.
Qed.

(** A stripped string is empty or starts with a visible character. *)
Lemma strip_head (s t : str) (c : char) :
  strip s = c :: t -> isspace c = false.
Proof.
  unfold strip. destruct (lstrip s) as [|x l] eqn:E.
  - discriminate.
  - pose proof (lstrip_head _ _ _ E) as Hx.
    rewrite rstrip_keeps_head by assumption.
    intros H. now inversion H; subst.
Qed.

Lemma strip_idem (s : str) : strip (strip s) = strip s.
Proof.
  destruct (strip s) as [|c t] eqn:E; [reflexivity|].
  pose proof (strip_head _ _ _ E) as Hc.
  rewrite strip_keeps_head by assumption.
  unfold strip in E. destruct (lstrip s) as [|x l] eqn:El; [discriminate|].
  pose proof (lstrip_head _ _ _ El) as Hx.
  rewrite rstrip_keeps_head in E by assumption.
  inversion E; subst. now rewrite rstrip_idem.
Qed.

End StrFacts.

(** ** Code-point order, [sorted] and [set] *)

Section Order.

Lemma compare_refl (a : str) : compare a a = Eq.
Proof.
  induction a as [|x a IH]; simpl; [reflexivity|].
  now rewrite N.compare_refl.
Qed.

Lemma compare_eq (a b : str) : compare a b = Eq -> a = b.
Proof.
  revert b. induction a as [|x a IH]; intros [|y b]; simpl;
    try discriminate; [reflexivity|].
  destruct (N.compare_spec x y) as [Hxy|Hxy|Hxy]; try discriminate.
  intros Hc. subst. f_equal. now apply IH.
Qed.

Lemma compare_antisym (a b : str) : compare b a = CompOpp (compare a b).
Proof.
  revert b. induction a as [|x a IH]; intros [|y b]; simpl;
    try reflexivity.
  rewrite (N.compare_antisym x y).
  destruct (x ?= y)%N; simpl; [apply IH | reflexivity | reflexivity].
Qed.

Lemma lt_trans (a b c : str) : Str.lt a b -> Str.lt b c -> Str.lt a c.
Proof.
  unfold Str.lt. revert b c.
  induction a as [|x a IH]; intros [|y b] [|z c]; simpl;
    try discriminate; try reflexivity.
  destruct (N.compare_spec x y) as [Hxy|Hxy|Hxy]; try discriminate;
    destruct (N.compare_spec y z) as [Hyz|Hyz|Hyz]; try discriminate;
    intros H1 H2; subst.
  - rewrite N.compare_refl. now apply IH with b.
  - now apply N.compare_lt_iff in Hyz as ->.
  - now apply N.compare_lt_iff in Hxy as ->.
  - assert (Hxz : (x < z)%N) by lia.
    now apply N.compare_lt_iff in Hxz as ->.
Qed.

Lemma lt_irrefl (a : str) : ~ Str.lt a a.
Proof. unfold Str.lt. now rewrite compare_refl. Qed.

Lemma le_total (a b : str) : Str.leb a b = false -> le b a.
Proof.
  unfold le, Str.leb. rewrite (compare_antisym a b).
  now destruct (compare a b).
Qed.

Lemma le_neq_lt (a b : str) : le a b -> a <> b -> Str.lt a b.
Proof.
  unfold le, Str.leb, Str.lt. intros H Hne.
  destruct (compare a b) eqn:E; try reflexivity; try discriminate.
  now apply compare_eq in E.
Qed.

Lemma insert_sorted_perm (x : str) (xs : list str) :
  Permutation (insert_sorted x xs) (x :: xs).
Proof.
  induction xs as [|y t IH]; simpl; [reflexivity|].
  destruct (Str.leb x y); [reflexivity|].
  rewrite IH. apply perm_swap.
Qed.

Lemma sorted_perm (xs : list str) : Permutation (sorted xs) xs.
Proof.
  induction xs as [|x t IH]; simpl; [reflexivity|].
  rewrite insert_sorted_perm. now constructor.
Qed.

Lemma le_trans (a b c : str) : le a b -> le b c -> le a c.
Proof.
  intros Hab Hbc.
  destruct (list_eq_dec N.eq_dec a b) as [->|Nab]; [assumption|].
  destruct (list_eq_dec N.eq_dec b c) as [->|Nbc]; [assumption|].
  pose proof (lt_trans _ _ _ (le_neq_lt _ _ Hab Nab) (le_neq_lt _ _ Hbc Nbc))
    as H.
  unfold le, Str.leb. now rewrite H.
Qed.

Lemma insert_sorted_ok (x : str) (xs : list str) :
  StronglySorted le xs -> StronglySorted le (insert_sorted x xs).
Proof.
  induction 1 as [|y t Hs IH Hy]; simpl.
  - constructor; constructor.
  - destruct (Str.leb x y) eqn:E.
    + constructor; [now constructor|].
      constructor; [assumption|].
      eapply Forall_impl; [|exact Hy]. intros z Hz.
      now apply le_trans with y.
    + constructor; [assumption|].
      apply (Permutation_Forall (Permutation_sym (insert_sorted_perm x t))).
      constructor; [now apply le_total | assumption].
Qed.

Lemma sorted_ok (xs : list str) : StronglySorted le (sorted xs).
Proof.
  induction xs as [|x t IH]; simpl; [constructor|].
  now apply insert_sorted_ok.
Qed.

Lemma strict_of_nodup (xs : list str) :
  StronglySorted le xs -> NoDup xs -> StronglySorted Str.lt xs.
Proof.
  induction 1 as [|y t Hs IH Hy]; intros Hnd; [constructor|].
  inversion Hnd as [|? ? Hnin Hnd']; subst.
  constructor; [now apply IH|].
  apply Forall_forall. intros z Hz.
  apply le_neq_lt.
  - now apply (proj1 (Forall_forall _ _) Hy).
  - intros ->. contradiction.
Qed.

Lemma strict_nodup (xs : list str) : StronglySorted Str.lt xs -> NoDup xs.
Proof.
  induction 1 as [|y t Hs IH Hy]; constructor; [|assumption].
  intros Hin. apply (proj1 (Forall_forall _ _) Hy) in Hin.
  now apply lt_irrefl in Hin.
Qed.

(** Two strictly increasing lists with the same members are equal. *)
Lemma strict_unique (l1 l2 : list str) :
  StronglySorted Str.lt l1 -> StronglySorted Str.lt l2 ->
  (forall x, In x l1 <-> In x l2) -> l1 = l2.
Proof.
  intros H1. revert l2.
  induction H1 as [|x t Hs IH Hx]; intros l2 H2 Hin.
  - destruct l2 as [|y l2]; [reflexivity|].
    exfalso. apply (proj2 (Hin y)). now left.
  - destruct H2 as [|y u Hu Hy].
    + exfalso. apply (proj1 (Hin x)). now left.
    + assert (Hxy : x = y).
      { destruct (proj1 (Hin x) (or_introl eq_refl)) as [E|Hxu];
          [now symmetry|].
        destruct (proj2 (Hin y) (or_introl eq_refl)) as [E|Hyt];
          [assumption|].
        apply (proj1 (Forall_forall _ _) Hy) in Hxu.
        apply (proj1 (Forall_forall _ _) Hx) in Hyt.
        exfalso. apply (lt_irrefl x). now apply lt_trans with y. }
      subst y. f_equal. apply IH; [assumption|].
      intros z; split; intros Hz.
      * destruct (proj1 (Hin z) (or_intror Hz)) as [E|Hzu]; [|assumption].
        subst z. apply (proj1 (Forall_forall _ _) Hx) in Hz.
        now apply lt_irrefl in Hz.
      * destruct (proj2 (Hin z) (or_intror Hz)) as [E|Hzt]; [|assumption].
        subst z. apply (proj1 (Forall_forall _ _) Hy) in Hz.
        now apply lt_irrefl in Hz.
Qed.

Lemma canon_In (xs : list str) (x : str) : In x (canon xs) <-> In x xs.
Proof.
  unfold canon, py_set. split; intros H.
  - apply (Permutation_in _ (sorted_perm _)) in H.
    now apply nodup_In in H.
  - apply (Permutation_in _ (Permutation_sym (sorted_perm _))).
    now apply nodup_In.
Qed.

Lemma canon_strict (xs : list str) : StronglySorted Str.lt (canon xs).
Proof.
  unfold canon. apply strict_of_nodup; [apply sorted_ok|].
  apply (Permutation_NoDup (l := py_set xs)).
  - symmetry. apply sorted_perm.
  - apply NoDup_nodup.
Qed.

Lemma canon_ext (xs ys : list str) :
  (forall x, In x xs <-> In x ys) -> canon xs = canon ys.
Proof.
  intros H. apply strict_unique; try apply canon_strict.
  intros x. rewrite !canon_In. apply H.
Qed.

Lemma canon_once (xs : list str) (x : str) :
  In x xs -> count_occ (list_eq_dec N.eq_dec) (canon xs) x = 1%nat.
Proof.
  intros H. apply NoDup_count_occ'.
  - apply strict_nodup, canon_strict.
  - now apply canon_In.
Qed.

End Order.

(** ** The parser returns *)

Section Totality.

Context {rt : Runtime}.

Lemma split_nonempty (s : str) (sep : char) : split s sep <> [].
Proof.
  destruct s as [|c t]; simpl; [discriminate|].
  destruct (c =? sep)%N; [discriminate|].
  destruct (split t sep); discriminate.
Qed.

Lemma getitem_head {A} (xs : list A) :
  xs <> [] -> exists x, getitem xs 0 = Ok x.
Proof. destruct xs as [|x t]; [congruence|]. now exists x. Qed.

Lemma getitem_second {A} (xs : list A) :
  (1 <? Z.of_nat (length xs)) = true -> exists x, getitem xs 1 = Ok x.
Proof.
  destruct xs as [|x [|y t]]; simpl; try discriminate. now exists y.
Qed.

Lemma classify_total (line : str) : exists r, classify line = Ok r.
Proof.
  unfold classify.
  destruct (contains (lit ",") line && negb (startswith line (lit "http"))).
  - destruct (getitem_head (map strip (split line comma))) as [p0 ->].
    { intros E. apply map_eq_nil in E. now apply split_nonempty in E. }
    simpl.
    destruct (1 <? Z.of_nat (length (map strip (split line comma)))) eqn:E.
    + destruct (getitem_second _ E) as [v ->]. simpl.
      repeat match goal with |- context [if ?b then _ else _] =>
        destruct b end; eauto.
    + simpl.
      repeat match goal with |- context [if ?b then _ else _] =>
        destruct b end; eauto.
  - repeat match goal with |- context [if ?b then _ else _] =>
      destruct b end; eauto.
Qed.

Lemma classify_lines_total (lines : list str) (acc : lists) :
  exists r, classify_lines lines acc = Ok r.
Proof.
  revert acc. induction lines as [|raw rest IH]; intros acc; simpl.
  - now exists acc.
  - destruct (truthy (_strip_comment raw)); [|apply IH].
    destruct (classify_total (_strip_comment raw)) as [r ->]. simpl.
    apply IH.
Qed.

Lemma load_payload_total (text : str) : exists p, load_payload text = Ok p.
Proof.
  unfold load_payload.
  match goal with |- context [try_except ?m _] => destruct m as [p|e] end;
    simpl; eauto.
Qed.

(** The loop returns, so [parse_clash_or_plain] returns as soon as
    the entries are read. *)
Lemma parse_of_entries (text : str) (ls : list str) :
  entries text = Ok ls ->
  exists acc, classify_lines ls no_lists = Ok acc
              /\ parse_clash_or_plain text = Ok (dedup acc).
Proof.
  intros H. unfold parse_clash_or_plain. rewrite H. simpl.
  destruct (classify_lines_total ls no_lists) as [acc Hacc].
  rewrite Hacc. simpl. now exists acc.
Qed.

Lemma parse_inv (text : str) (r : lists) :
  parse_clash_or_plain text = Ok r ->
  exists ls acc, entries text = Ok ls
                 /\ classify_lines ls no_lists = Ok acc /\ r = dedup acc.
Proof.
  unfold parse_clash_or_plain.
  destruct (entries text) as [ls|]; [|discriminate]. cbn [bind].
  destruct (classify_lines ls no_lists) as [acc|] eqn:E; [|discriminate].
  cbn [bind]. intros H. inversion H. now exists ls, acc.
Qed.

(** It raises only what reading the entries raises. *)
Lemma parse_raise (text : str) (e : exn) :
  parse_clash_or_plain text = Raise e -> entries text = Raise e.
Proof.
  unfold parse_clash_or_plain.
  destruct (entries text) as [ls|e']; cbn [bind].
  - destruct (classify_lines_total ls no_lists) as [acc ->].
    cbn [bind]. discriminate.
  - intros H. now inversion H.
Qed.

Lemma returns_parsed (text : str) :
  returns text -> parse_clash_or_plain text = Ok (parsed text).
Proof. intros [r H]. unfold parsed. now rewrite H. Qed.

Lemma parse_parsed (text : str) (r : lists) :
  parse_clash_or_plain text = Ok r -> r = parsed text.
Proof. intros H. unfold parsed. now rewrite H. Qed.

Lemma merge_sources_ok (texts : list str) (all : lists) :
  Forall returns texts ->
  merge_sources texts all
  = Ok (mk_lists
          (domains all ++ flat_map (fun t => domains (parsed t)) texts)
          (suffixes all ++ flat_map (fun t => suffixes (parsed t)) texts)
          (cidrs all ++ flat_map (fun t => cidrs (parsed t)) texts)).
Proof.
  intros H. revert all. induction H as [|t rest Ht _ IH]; intros all; simpl.
  - rewrite !app_nil_r. now destruct all.
  - rewrite (returns_parsed _ Ht). simpl. rewrite IH. simpl.
    now rewrite <- !app_assoc.
Qed.

Lemma merge_sources_inv (texts : list str) (all r : lists) :
  merge_sources texts all = Ok r -> Forall returns texts.
Proof.
  revert all. induction texts as [|t rest IH]; intros all; simpl;
    [constructor|].
  destruct (parse_clash_or_plain t) as [rt'|] eqn:E; [|discriminate].
  simpl. intros H. constructor; [now exists rt' | eapply IH, H].
Qed.

Lemma group_ruleset_ok (texts : list str) :
  Forall returns texts ->
  group_ruleset texts
  = Ok (mk_lists
          (canon (flat_map (fun t => domains (parsed t)) texts))
          (canon (flat_map (fun t => suffixes (parsed t)) texts))
          (canon (flat_map (fun t => cidrs (parsed t)) texts))).
Proof.
  intros H. unfold group_ruleset. now rewrite merge_sources_ok.
Qed.

Lemma group_ruleset_inv (texts : list str) (rs : lists) :
  group_ruleset texts = Ok rs -> Forall returns texts.
Proof.
  unfold group_ruleset.
  destruct (merge_sources texts no_lists) as [all|] eqn:E; [|discriminate].
  intros _. eapply merge_sources_inv, E.
Qed.

Lemma canon_perm (xs ys : list str) :
  Permutation xs ys -> canon xs = canon ys.
Proof.
  intros H. apply canon_ext. intros x; split; apply Permutation_in;
    [assumption | now symmetry].
Qed.

End Totality.

(** ** Aggregation *)

Section Aggregation.

Context {rt : Runtime}.

Lemma dedup_strict (acc : lists) :
  StronglySorted Str.lt (domains (dedup acc))
  /\ StronglySorted Str.lt (suffixes (dedup acc))
  /\ StronglySorted Str.lt (cidrs (dedup acc)).
Proof. repeat split; apply canon_strict. Qed.

Lemma In_flat_map_parsed (f : lists -> list str) (texts : list str)
      (text : str) (x : str) :
  In text texts -> In x (f (parsed text)) ->
  In x (flat_map (fun t => f (parsed t)) texts).
Proof. intros Ht Hx. apply in_flat_map. now exists text. Qed.

(** C10: the three lists [parse_clash_or_plain] returns for a text are
    each strictly increasing in code-point order, so sorted and without
    a repeated string, before any merge; and it returns them whenever
    the entries of the text are read. *)
Theorem per_source_lists_sorted_unique (text : str) :
  (forall ls, entries text = Ok ls ->
              exists r, parse_clash_or_plain text = Ok r)
  /\ forall r, parse_clash_or_plain text = Ok r ->
       StronglySorted Str.lt (domains r) /\ NoDup (domains r)
       /\ StronglySorted Str.lt (suffixes r) /\ NoDup (suffixes r)
       /\ StronglySorted Str.lt (cidrs r) /\ NoDup (cidrs r).
Proof.
  split.
  - intros ls H. destruct (parse_of_entries _ _ H) as (acc & _ & Hp). eauto.
  - intros r H. apply parse_inv in H as (ls & acc & _ & _ & ->).
    destruct (dedup_strict acc) as (Hd & Hs & Hc).
    repeat split; auto using strict_nodup.
Qed.

(** C6: the lists written for a group are each strictly increasing in
    code-point order, hence sorted with no string twice, and a string
    that some source of the group yields for a category occurs exactly
    once in that category; the lists are produced whenever every
    source is parsed. *)
Theorem group_lists_sorted_unique (texts : list str) :
  (Forall returns texts -> exists rs, group_ruleset texts = Ok rs)
  /\ forall rs, group_ruleset texts = Ok rs ->
       (StronglySorted Str.lt (domains rs) /\ NoDup (domains rs))
       /\ (StronglySorted Str.lt (suffixes rs) /\ NoDup (suffixes rs))
       /\ (StronglySorted Str.lt (cidrs rs) /\ NoDup (cidrs rs))
       /\ forall text r x,
            In text texts -> parse_clash_or_plain text = Ok r ->
            (In x (domains r) ->
             count_occ (list_eq_dec N.eq_dec) (domains rs) x = 1%nat)
            /\ (In x (suffixes r) ->
                count_occ (list_eq_dec N.eq_dec) (suffixes rs) x = 1%nat)
            /\ (In x (cidrs r) ->
                count_occ (list_eq_dec N.eq_dec) (cidrs rs) x = 1%nat).
Proof.
  split.
  - intros H. eexists. now apply group_ruleset_ok.
  - intros rs H. pose proof (group_ruleset_inv _ _ H) as Hret.
    rewrite (group_ruleset_ok _ Hret) in H. inversion H; subst rs.
    cbn [domains suffixes cidrs].
    repeat split; try apply canon_strict;
      try (apply strict_nodup, canon_strict).
    all: intros Hx; apply canon_once;
      match goal with
      | Hp : parse_clash_or_plain ?t = Ok ?r |- _ =>
          apply parse_parsed in Hp; subst r
      end;
      now apply In_flat_map_parsed with text.
Qed.

(** C7: the lists and the JSON of a group do not depend on the order
    of its source texts: one order gives lists exactly when the other
    does, and they are the same lists and the same JSON. *)
Theorem source_order_irrelevant (texts texts' : list str) :
  Permutation texts texts' ->
  (forall rs, group_ruleset texts = Ok rs <-> group_ruleset texts' = Ok rs)
  /\ (forall j, group_json texts = Ok j <-> group_json texts' = Ok j).
Proof.
  assert (One : forall a b rs, Permutation a b ->
                  group_ruleset a = Ok rs -> group_ruleset b = Ok rs).
  { intros a b rs HP H. pose proof (group_ruleset_inv _ _ H) as Hret.
    rewrite (group_ruleset_ok _ Hret) in H.
    rewrite (group_ruleset_ok _ (Permutation_Forall HP Hret)).
    rewrite <- H.
    rewrite (canon_perm _ _
               (Permutation_flat_map (fun t => domains (parsed t)) HP)).
    rewrite (canon_perm _ _
               (Permutation_flat_map (fun t => suffixes (parsed t)) HP)).
    rewrite (canon_perm _ _
               (Permutation_flat_map (fun t => cidrs (parsed t)) HP)).
    reflexivity. }
  assert (Two : forall a b j, Permutation a b ->
                  group_json a = Ok j -> group_json b = Ok j).
  { intros a b j HP. unfold group_json.
    destruct (group_ruleset a) as [rs|] eqn:E; [|discriminate].
    now rewrite (One a b rs HP E). }
  intros HP. pose proof (Permutation_sym HP) as HP'.
  split; intros x; split; eauto.
Qed.


(** X22: [parse_clash_or_plain] returns when the loader raises and
    when the text has no payload list, and when it raises, the
    exception is the one that [str()] of an element of the payload
    list raised. *)
Theorem parser_raises_only_from_str (text : str) :
  (forall e, safe_load text = Raise e -> returns text)
  /\ (load_payload text = Ok None -> returns text)
  /\ (forall e, parse_clash_or_plain text = Raise e ->
                exists items, load_payload text = Ok (Some items)
                              /\ payload_lines items = Raise e).
Proof.
  assert (Plain : load_payload text = Ok None -> returns text).
  { intros H.
    destruct (parse_of_entries text (splitlines text)) as (acc & _ & Hp).
    - unfold entries. now rewrite H.
    - now exists (dedup acc). }
  split; [|split; [assumption|]].
  - intros e H. apply Plain. unfold load_payload. now rewrite H.
  - intros e H. apply parse_raise in H. unfold entries in H.
    destruct (load_payload_total text) as [[items|] Hp];
      rewrite Hp in H; cbn [bind] in H; [|discriminate].
    now exists items.
Qed.

End Aggregation.

(** ** Classification *)

Section Classification.

Context {rt : Runtime}.

Lemma split_nosep (s : str) (sep : char) :
  ~ In sep s -> split s sep = [s].
Proof.
  induction s as [|c t IH]; intros H; simpl; [reflexivity|].
  destruct (N.eqb_spec c sep) as [->|Hne].
  - exfalso. apply H. now left.
  - rewrite IH; [reflexivity|]. intros Hin. apply H. now right.
Qed.

Lemma split_app (a b : str) (sep : char) :
  ~ In sep a -> split (a ++ sep :: b) sep = a :: split b sep.
Proof.
  induction a as [|c t IH]; intros H; simpl.
  - now rewrite N.eqb_refl.
  - destruct (N.eqb_spec c sep) as [->|Hne].
    + exfalso. apply H. now left.
    + rewrite IH; [reflexivity|]. intros Hin. apply H. now right.
Qed.

Lemma member_In (x : str) (xs : list str) :
  member x xs = true <-> In x xs.
Proof.
  unfold member. rewrite existsb_exists. split.
  - intros (y & Hy & E). apply eqb_eq in E. now subst.
  - intros H. exists x. split; [assumption | apply eqb_refl].
Qed.

Lemma member_not_In (x : str) (xs : list str) :
  ~ In x xs -> member x xs = false.
Proof.
  intros H. destruct (member x xs) eqn:E; [|reflexivity].
  now apply member_In in E.
Qed.

Lemma second_part (A : Type) (a b : A) (r : list A) :
  (1 <? Z.of_nat (length (a :: b :: r))) = true.
Proof. apply Z.ltb_lt. simpl length. lia. Qed.

(** *** The pattern of a bare network needs a slash *)

Lemma span_app (p : char -> bool) (s a b : str) :
  span p s = (a, b) -> s = a ++ b.
Proof.
  revert a b. induction s as [|c t IH]; intros a b; simpl.
  - intros H. now inversion H.
  - destruct (p c).
    + destruct (span p t) as [a' b'] eqn:E. intros H. inversion H; subst.
      simpl. f_equal. now apply IH.
    + intros H. now inversion H.
Qed.

Lemma re_digits_In (lo hi : nat) (s r : str) (c : char) :
  re_digits lo hi s = Some r -> In c r -> In c s.
Proof.
  unfold re_digits. destruct (span is_digit s) as [d r'] eqn:E.
  destruct ((lo <=? length d)%nat && (length d <=? hi)%nat);
    [|discriminate].
  intros H Hin. inversion H; subst r'.
  rewrite (span_app _ _ _ _ E). apply in_or_app. now right.
Qed.

Lemma re_char_eq (c : char) (s r : str) :
  re_char c s = Some r -> s = c :: r.
Proof.
  destruct s as [|x t]; simpl; [discriminate|].
  destruct (N.eqb_spec x c) as [->|]; [|discriminate].
  intros H. now inversion H.
Qed.

Lemma re_groups_In (n : nat) (s r : str) (c : char) :
  re_groups n s = Some r -> In c r -> In c s.
Proof.
  revert s. induction n as [|n IH]; intros s; simpl.
  - intros H. now inversion H.
  - destruct (re_char dot s) as [r1|] eqn:E1; [|discriminate].
    destruct (re_digits 1 3 r1) as [r2|] eqn:E2; [|discriminate].
    intros H Hin. apply re_char_eq in E1. subst s. right.
    eapply re_digits_In; [exact E2|]. now apply IH.
Qed.

Lemma re_match_cidr_slash (line : str) :
  re_match_cidr line = true -> In slash line.
Proof.
  unfold re_match_cidr.
  destruct (re_digits 1 3 line) as [r1|] eqn:E1; [|discriminate].
  destruct (re_groups 3 r1) as [r2|] eqn:E2; [|discriminate].
  destruct (re_char slash r2) as [r3|] eqn:E3; [|discriminate].
  intros _. apply re_char_eq in E3.
  eapply re_digits_In; [exact E1|].
  eapply re_groups_In; [exact E2|]. subst r2. now left.
Qed.

(** *** A rule type does not begin like a URL *)

Lemma upper_strip_h (t x : str) :
  upper (strip (104%N :: t)) = x -> hd 0%N x = 72%N.
Proof.
  rewrite strip_keeps_head by reflexivity. now intros <-.
Qed.

Lemma rule_type_not_http (TYPE rest : str) :
  In (upper (strip TYPE))
     [lit "DOMAIN"; lit "DOMAIN-SUFFIX"; lit "IP-CIDR"; lit "IP-CIDR6"] ->
  startswith (TYPE ++ comma :: rest) (lit "http") = false.
Proof.
  intros H.
  destruct (startswith (TYPE ++ comma :: rest) (lit "http")) eqn:E;
    [|reflexivity].
  exfalso. destruct TYPE as [|c t]; [discriminate E|].
  change (lit "http") with (104%N :: lit "ttp") in E.
  rewrite <- app_comm_cons, startswith_cons in E.
  apply andb_true_iff in E as [Ec _].
  apply N.eqb_eq in Ec. subst c.
  destruct H as [H|[H|[H|[H|[]]]]]; symmetry in H;
    apply upper_strip_h in H; discriminate H.
Qed.

Lemma contains_comma (line : str) :
  In comma line -> contains (lit ",") line = true.
Proof. apply (contains_char comma). Qed.

(** What the first branch of the loop computes for a line with a
    comma that does not begin with [http]. *)
Lemma classify_fields (TYPE rest : str) :
  ~ In comma TYPE ->
  startswith (TYPE ++ comma :: rest) (lit "http") = false ->
  classify (TYPE ++ comma :: rest)
  = let rule_type := upper (strip TYPE) in
    let value := strip (hd [] (split rest comma)) in
    if member rule_type [lit "DOMAIN"] then
      Ok (if truthy value then Domain value else Unsupported)
    else if member rule_type [lit "DOMAIN-SUFFIX"] then
      Ok (if truthy value then DomainSuffix value else Unsupported)
    else if member rule_type [lit "IP-CIDR"; lit "IP-CIDR6"] then
      Ok (if truthy value then IPNetwork value else Unsupported)
    else Ok Unsupported.
Proof.
  intros Hc Hh. unfold classify.
  rewrite contains_comma by (apply in_or_app; right; now left).
  rewrite Hh, split_app by assumption.
  destruct (split rest comma) as [|v vs] eqn:E;
    [now apply split_nonempty in E|].
  cbn [negb andb map getitem nth_error bind hd].
  rewrite second_part. reflexivity.
Qed.

(** C2, amended: a line with a dot, no whitespace and no slash, that
    has no comma or begins with [http], is classified as
    [DomainSuffix] of itself. *)
Theorem bare_domain_is_suffix (line : str) :
  In dot line ->
  (forall c, In c line -> isspace c = false) ->
  ~ In slash line ->
  ~ In comma line \/ startswith line (lit "http") = true ->
  classify line = Ok (DomainSuffix line).
Proof.
  intros Hdot Hws Hslash Hcomma. unfold classify.
  assert (C1 : contains (lit ",") line
               && negb (startswith line (lit "http")) = false).
  { destruct Hcomma as [Hc|Hh].
    - apply (contains_char_false comma) in Hc.
      change (lit ",") with [comma]. now rewrite Hc.
    - rewrite Hh. apply andb_false_r. }
  rewrite C1.
  assert (C2 : re_match_cidr line = false).
  { destruct (re_match_cidr line) eqn:E; [|reflexivity].
    apply re_match_cidr_slash in E. contradiction. }
  rewrite C2.
  assert (C3 : contains (lit ".") line = true)
    by now apply (contains_char dot).
  assert (C4 : contains (lit " ") line = false).
  { apply (contains_char_false space). intros Hin.
    apply Hws in Hin. discriminate Hin. }
  assert (C5 : contains (lit "/") line = false)
    by now apply (contains_char_false slash).
  now rewrite C3, C4, C5.
Qed.

Lemma first_field (VALUE extra : str) :
  ~ In comma VALUE -> extra = [] \/ (exists e, extra = comma :: e) ->
  hd [] (split (VALUE ++ extra) comma) = VALUE.
Proof.
  intros HV [->|[e ->]].
  - now rewrite app_nil_r, split_nosep.
  - now rewrite split_app.
Qed.

(** C4: a line [TYPE,VALUE], with or without further fields, whose
    type, trimmed and upper-cased, is one of the four known types and
    whose value trims to a non-empty string is classified as the
    variant of that type with the trimmed value; a line with a comma
    that does not begin with [http] and whose type is none of the four
    is [Unsupported], and appends nothing. *)
Theorem type_value_classification :
  (forall TYPE VALUE extra,
      ~ In comma TYPE -> ~ In comma VALUE ->
      extra = [] \/ (exists e, extra = comma :: e) ->
      strip VALUE <> [] ->
      (upper (strip TYPE) = lit "DOMAIN" ->
       classify (TYPE ++ comma :: VALUE ++ extra)
       = Ok (Domain (strip VALUE)))
      /\ (upper (strip TYPE) = lit "DOMAIN-SUFFIX" ->
          classify (TYPE ++ comma :: VALUE ++ extra)
          = Ok (DomainSuffix (strip VALUE)))
      /\ (upper (strip TYPE) = lit "IP-CIDR"
           \/ upper (strip TYPE) = lit "IP-CIDR6" ->
          classify (TYPE ++ comma :: VALUE ++ extra)
          = Ok (IPNetwork (strip VALUE))))
  /\ (forall TYPE rest,
        ~ In comma TYPE ->
        startswith (TYPE ++ comma :: rest) (lit "http") = false ->
        ~ In (upper (strip TYPE))
             [lit "DOMAIN"; lit "DOMAIN-SUFFIX"; lit "IP-CIDR";
              lit "IP-CIDR6"] ->
        classify (TYPE ++ comma :: rest) = Ok Unsupported
        /\ forall acc, append_rule acc Unsupported = acc).
Proof.
  split.
  - intros TYPE VALUE extra HT HV Hex Hne.
    assert (Hv : truthy (strip VALUE) = true)
      by (destruct (strip VALUE); [congruence | reflexivity]).
    pose proof (first_field _ _ HV Hex) as Hf.
    repeat split; intros H.
    + rewrite classify_fields; [|assumption|].
      * rewrite Hf. cbv zeta. rewrite H, Hv. reflexivity.
      * apply rule_type_not_http. rewrite H. now left.
    + rewrite classify_fields; [|assumption|].
      * rewrite Hf. cbv zeta. rewrite H, Hv. reflexivity.
      * apply rule_type_not_http. rewrite H. right. now left.
    + rewrite classify_fields; [|assumption|].
      * rewrite Hf. cbv zeta.
        destruct H as [H|H]; rewrite H, Hv; reflexivity.
      * apply rule_type_not_http.
        destruct H as [H|H]; rewrite H; simpl; auto.
  - intros TYPE rest HT Hh Hno. split; [|reflexivity].
    rewrite classify_fields by assumption. cbv zeta.
    rewrite !member_not_In; [reflexivity| | |];
      intros Hin; apply Hno; simpl in *; intuition.
Qed.

End Classification.

(** ** The payload of a rule provider *)

Section Payload.

Context {rt : Runtime}.

Lemma dict_getitem_contains (d : list (pyobj * pyobj)) (k : str)
      (v : pyobj) :
  dict_getitem d k = Ok v -> dict_contains d k = true.
Proof.
  unfold dict_getitem, dict_contains.
  destruct (List.find (fun kv => key_is k (fst kv)) d) as [kv|] eqn:E;
    [|discriminate].
  intros _. apply find_some in E. apply existsb_exists.
  now exists kv.
Qed.

Lemma classify_lines_skip_empty (ls : list str) (acc : lists) :
  classify_lines (filter truthy ls) acc = classify_lines ls acc.
Proof.
  revert acc. induction ls as [|l t IH]; intros acc; [reflexivity|].
  cbn [filter]. destruct l as [|c s].
  - cbn [truthy]. rewrite IH. reflexivity.
  - cbn [truthy classify_lines].
    destruct (truthy (_strip_comment (c :: s))).
    + destruct (classify (_strip_comment (c :: s))); cbn [bind];
        [apply IH | reflexivity].
    + apply IH.
Qed.

(** The comprehension of line 59 takes [str()] of each element and
    keeps the trimmed texts that are not empty. *)
Lemma payload_lines_eq (items : list pyobj) :
  payload_lines items
  = (strs <- all_str items ;; Ok (filter truthy (map strip strs))).
Proof.
  induction items as [|x rest IH]; [reflexivity|].
  cbn [payload_lines all_str].
  destruct (py_str x) as [c|e]; cbn [bind]; [|reflexivity].
  rewrite IH.
  destruct (all_str rest) as [strs|e]; cbn [bind map filter];
    destruct (truthy (strip c)); reflexivity.
Qed.

(** C1, amended: when the loader returns a mapping whose key
    [payload] holds a list, the entries are the elements of that list,
    each as [str()] gives it and trimmed, those that trim to the empty
    string left out; the lists returned are those of the loop run on
    all the trimmed elements. *)
Theorem payload_list_gives_entries (text : str)
        (d : list (pyobj * pyobj)) (items : list pyobj) :
  safe_load text = Ok (PyDict d) ->
  dict_getitem d (lit "payload") = Ok (PyList items) ->
  entries text
  = (strs <- all_str items ;; Ok (filter truthy (map strip strs)))
  /\ parse_clash_or_plain text
     = (strs <- all_str items ;;
        acc <- classify_lines (map strip strs) no_lists ;;
        Ok (dedup acc)).
Proof.
  intros Hload Hget.
  assert (E : entries text
              = (strs <- all_str items ;;
                 Ok (filter truthy (map strip strs)))).
  { unfold entries, load_payload. rewrite Hload. cbn [bind].
    rewrite (dict_getitem_contains _ _ _ Hget), Hget. cbn [bind].
    apply payload_lines_eq. }
  split; [assumption|].
  unfold parse_clash_or_plain. rewrite E.
  destruct (all_str items) as [strs|e]; cbn [bind]; [|reflexivity].
  now rewrite classify_lines_skip_empty.
Qed.

End Payload.

(** ** The normalizer *)

Section Normalizer.

Lemma cut_at_eq (line sep : str) :
  cut_at line sep
  = match index_of sep line with
    | Some i => strip (firstn i line)
    | None => line
    end.
Proof.
  unfold cut_at, find, slice_to.
  destruct (index_of sep line) as [i|]; [|reflexivity].
  destruct (Z.eqb_spec (Z.of_nat i) (-1)) as [E|_]; [lia|].
  destruct (Z.ltb_spec (Z.of_nat i) 0) as [E|_]; [lia|].
  cbn [negb]. now rewrite Nat2Z.id.
Qed.

Lemma strip_clean (s : str) : clean s -> strip s = rstrip s.
Proof.
  destruct s as [|c t]; [reflexivity|]. intros H.
  now rewrite strip_keeps_head, rstrip_keeps_head.
Qed.

Lemma clean_firstn (s : str) (p : nat) : clean s -> clean (firstn p s).
Proof. destruct s, p; simpl; auto. Qed.

Lemma clean_rstrip (s : str) : clean s -> clean (rstrip s).
Proof.
  destruct s as [|c t]; [easy|]. intros H.
  now rewrite rstrip_keeps_head.
Qed.

Lemma clean_strip (raw : str) : clean (strip raw).
Proof.
  destruct (strip raw) as [|c t] eqn:E; [exact I|].
  exact (strip_head _ _ _ E).
Qed.

Lemma rstrip_prefix (s : str) : exists w, s = rstrip s ++ w.
Proof.
  induction s as [|c t [w IH]]; [now exists []|].
  rewrite rstrip_cons. destruct (rstrip t) as [|x r].
  - destruct (isspace c); [now exists (c :: t)|].
    exists t. reflexivity.
  - exists w. simpl in *. now f_equal.
Qed.

Lemma rstrip_visible (tok z : str) :
  Forall (fun c => isspace c = false) tok ->
  rstrip (tok ++ z) = tok ++ rstrip z.
Proof.
  induction 1 as [|c tok Hc _ IH]; [reflexivity|].
  simpl. now rewrite rstrip_keeps_head, IH.
Qed.

Lemma startswith_mono (a b p : str) :
  startswith a p = true -> startswith (a ++ b) p = true.
Proof.
  intros H. apply startswith_inv in H as [r ->].
  rewrite <- app_assoc. apply startswith_app.
Qed.

Lemma index_of_le (sub s : str) (i : nat) :
  index_of sub s = Some i -> (i <= length s)%nat.
Proof.
  revert i. induction s as [|x t IH]; intros i; simpl.
  - destruct (startswith [] sub); [|discriminate].
    intros H. inversion H. lia.
  - destruct (startswith (x :: t) sub).
    + intros H. inversion H. lia.
    + destruct (index_of sub t) as [j|]; [|discriminate].
      intros H. inversion H. specialize (IH j eq_refl). lia.
Qed.

Lemma index_of_unfold (sub s : str) :
  index_of sub s
  = if startswith s sub then Some O
    else match s with
         | [] => None
         | _ :: t => option_map S (index_of sub t)
         end.
Proof. now destruct s. Qed.

(** A visible token that ends before a blank lies before it. *)
Lemma firstn_covers (tok rest : str) (p : nat) (w : char) (r : str) :
  Forall (fun c => isspace c = false) tok ->
  skipn p (tok ++ rest) = w :: r -> isspace w = true ->
  exists z, firstn p (tok ++ rest) = tok ++ z.
Proof.
  intros Htok. revert p.
  induction Htok as [|c tok Hc _ IH]; intros p Hsk Hw.
  - now exists (firstn p rest).
  - destruct p as [|p]; simpl in Hsk.
    + inversion Hsk; subst. congruence.
    + destruct (IH p Hsk Hw) as [z Hz]. exists z. simpl. now rewrite Hz.
Qed.

Lemma startswith_cut (sep s : str) (p : nat) (w : char) (r : str) :
  shaped sep -> startswith s sep = true ->
  skipn (S p) s = w :: r -> isspace w = true ->
  startswith (rstrip (firstn (S p) s)) sep = true.
Proof.
  intros (tok & -> & Hne & Htok) Hst Hsk Hw.
  apply startswith_inv in Hst as [rest ->].
  simpl in Hsk. destruct (firstn_covers _ _ _ _ _ Htok Hsk Hw) as [z Hz].
  cbn [app firstn]. rewrite Hz, rstrip_cons, rstrip_visible by assumption.
  destruct tok as [|c tok]; [congruence|].
  cbn [app]. change (space :: c :: tok ++ rstrip z)
    with ((space :: c :: tok) ++ rstrip z).
  apply startswith_app.
Qed.

Lemma index_of_short (sep : str) (x : char) :
  shaped sep ->
  index_of sep [] = None /\ index_of sep [x] = None.
Proof.
  intros (tok & -> & Hne & _). destruct tok as [|c tok]; [congruence|].
  split; [reflexivity|]. simpl. now rewrite andb_false_r.
Qed.

(** The occurrences of a separator in a line cut at a blank and
    trimmed are its occurrences before the cut. *)
Lemma index_of_cut (sep : str) :
  shaped sep ->
  forall (s : str) (p : nat) (w : char) (r : str),
    skipn p s = w :: r -> isspace w = true ->
    index_of sep (rstrip (firstn p s))
    = match index_of sep s with
      | Some j => if (j <? p)%nat then Some j else None
      | None => None
      end.
Proof.
  intros Hsep. induction s as [|x s IH]; intros p w r Hsk Hw.
  - now rewrite skipn_nil in Hsk.
  - destruct p as [|p].
    + cbn [firstn]. rewrite rstrip_nil.
      rewrite (proj1 (index_of_short sep x Hsep)).
      now destruct (index_of sep (x :: s)).
    + rewrite (index_of_unfold sep (x :: s)).
      destruct (startswith (x :: s) sep) eqn:Est.
      * rewrite index_of_unfold.
        now rewrite (startswith_cut _ _ _ _ _ Hsep Est Hsk Hw).
      * simpl in Hsk. specialize (IH p w r Hsk Hw).
        cbn [firstn]. rewrite rstrip_cons.
        destruct (rstrip (firstn p s)) as [|y u] eqn:Eu.
        -- rewrite (proj1 (index_of_short sep x Hsep)) in IH.
           assert (E : index_of sep (if isspace x then [] else [x]) = None)
             by (destruct (isspace x); apply (index_of_short sep x Hsep)).
           rewrite E. destruct (index_of sep s) as [j|]; [|reflexivity].
           cbn [option_map]. change (S j <? S p)%nat with (j <? p)%nat.
           now destruct (j <? p)%nat.
        -- rewrite index_of_unfold.
           assert (E : startswith (x :: y :: u) sep = false).
           { destruct (startswith (x :: y :: u) sep) eqn:E1; [|reflexivity].
             destruct (rstrip_prefix (firstn p s)) as [w1 Hw1].
             rewrite Eu in Hw1.
             rewrite <- (firstn_skipn p s), Hw1, <- app_assoc in Est.
             apply (startswith_mono _ (w1 ++ skipn p s)) in E1.
             simpl in E1, Est. congruence. }
           rewrite E, IH.
           destruct (index_of sep s) as [j|]; [|reflexivity].
           cbn [option_map]. change (S j <? S p)%nat with (j <? p)%nat.
           now destruct (j <? p)%nat.
Qed.

Lemma first_of_nil (s : str) : first_of [] s = None.
Proof. induction s as [|x t IH]; simpl; [reflexivity | now rewrite IH]. Qed.

Lemma first_of_single (sep s : str) : first_of [sep] s = index_of sep s.
Proof.
  induction s as [|x t IH]; simpl.
  - now rewrite orb_false_r.
  - now rewrite orb_false_r, IH.
Qed.

Lemma min_opt_S (a b : option nat) :
  min_opt (option_map S a) (option_map S b) = option_map S (min_opt a b).
Proof. now destruct a, b. Qed.

Lemma first_of_unfold (seps : list str) (s : str) :
  first_of seps s
  = if existsb (startswith s) seps then Some O
    else match s with
         | [] => None
         | _ :: t => option_map S (first_of seps t)
         end.
Proof. now destruct s. Qed.

Lemma first_of_snoc (seps : list str) (sep s : str) :
  first_of (seps ++ [sep]) s = min_opt (first_of seps s) (index_of sep s).
Proof.
  induction s as [|x t IH];
    rewrite (first_of_unfold (seps ++ [sep])), (first_of_unfold seps),
      index_of_unfold, existsb_app; cbn [existsb]; rewrite orb_false_r.
  - destruct (existsb (startswith []) seps), (startswith [] sep);
      reflexivity.
  - destruct (existsb (startswith (x :: t)) seps);
      destruct (startswith (x :: t) sep); cbn [orb].
    + reflexivity.
    + now destruct (option_map S (index_of sep t)).
    + destruct (option_map S (first_of seps t)); [|reflexivity].
      cbn [min_opt]. now rewrite Nat.min_0_r.
    + now rewrite IH, min_opt_S.
Qed.

Lemma first_of_Some (seps : list str) (s : str) (p : nat) :
  first_of seps s = Some p ->
  existsb (startswith (skipn p s)) seps = true.
Proof.
  revert p. induction s as [|x t IH]; intros p;
    rewrite first_of_unfold.
  - destruct (existsb (startswith []) seps) eqn:E; [|discriminate].
    intros H. inversion H. exact E.
  - destruct (existsb (startswith (x :: t)) seps) eqn:E.
    + intros H. inversion H. exact E.
    + destruct (first_of seps t) as [q|]; [|discriminate].
      intros H. inversion H. simpl. now apply IH.
Qed.

(** A separator starts at a blank. *)
Lemma first_of_blank (seps : list str) (s : str) (p : nat) :
  Forall shaped seps -> first_of seps s = Some p ->
  exists r, skipn p s = space :: r.
Proof.
  intros Hs H. apply first_of_Some in H.
  apply existsb_exists in H as (sep & Hin & Hst).
  apply (proj1 (Forall_forall _ _) Hs) in Hin as (tok & -> & _).
  apply startswith_inv in Hst as [r ->]. now exists (tok ++ r).
Qed.

Lemma cut_at_clean (s sep : str) :
  clean s ->
  cut_at s sep
  = match index_of sep s with
    | Some i => rstrip (firstn i s)
    | None => s
    end.
Proof.
  intros H. rewrite cut_at_eq. destruct (index_of sep s); [|reflexivity].
  now apply strip_clean, clean_firstn.
Qed.

(** The three cuts of [_strip_comment], one after the other, cut at
    the first place where any of the separators starts. *)
Lemma fold_cut (seps : list str) :
  Forall shaped seps ->
  forall s, clean s ->
    fold_left cut_at seps s
    = match first_of seps s with
      | Some p => rstrip (firstn p s)
      | None => s
      end.
Proof.
  induction seps as [|sep seps IH] using rev_ind; intros Hs s Hc.
  - now rewrite first_of_nil.
  - apply Forall_app in Hs as [Hs Hsep].
    inversion Hsep as [|? ? Hshape _]; subst.
    rewrite fold_left_app. cbn [fold_left].
    rewrite (IH Hs s Hc), first_of_snoc.
    destruct (first_of seps s) as [p|] eqn:Ep.
    + destruct (first_of_blank _ _ _ Hs Ep) as [r Hr].
      rewrite cut_at_clean by now apply clean_rstrip, clean_firstn.
      pose proof (index_of_cut sep Hshape s p space r Hr eq_refl) as Hi.
      destruct (index_of sep (rstrip (firstn p s))) as [j|] eqn:Ej.
      * destruct (index_of sep s) as [j'|]; [|discriminate].
        destruct (Nat.ltb_spec j' p) as [Hlt|Hge]; [|discriminate].
        inversion Hi; subst j'. cbn [min_opt].
        rewrite (Nat.min_r p j) by lia.
        apply index_of_le in Ej.
        destruct (rstrip_prefix (firstn p s)) as [w Hw].
        f_equal.
        rewrite <- (firstn_skipn p s) at 2.
        rewrite Hw at 2. rewrite <- app_assoc, firstn_app.
        replace (j - length (rstrip (firstn p s)))%nat with O by lia.
        now rewrite app_nil_r.
      * destruct (index_of sep s) as [j'|]; [|reflexivity].
        destruct (Nat.ltb_spec j' p) as [Hlt|Hge]; [discriminate|].
        cbn [min_opt]. now rewrite (Nat.min_l p j') by lia.
    + cbn [min_opt]. now apply cut_at_clean.
Qed.

Lemma comment_seps_shaped : Forall shaped comment_seps.
Proof.
  repeat constructor.
  - exists (lit "#"). repeat split; [discriminate|]. now repeat constructor.
  - exists (lit ";"). repeat split; [discriminate|]. now repeat constructor.
  - exists (lit "//"). repeat split; [discriminate|]. now repeat constructor.
Qed.

(** The place the specification names is the place the loop finds. *)
Lemma first_token_is_first_sep (s : str) :
  first_token_after is_space s = first_of comment_seps s.
Proof.
  induction s as [|c t IH]; [reflexivity|].
  cbn [first_token_after]. rewrite first_of_unfold, IH.
  assert (E : starts_comment is_space (c :: t)
              = existsb (startswith (c :: t)) comment_seps).
  { unfold starts_comment, is_space, comment_seps, comment_tokens.
    cbn [existsb]. change (lit " #") with (space :: lit "#").
    change (lit " ;") with (space :: lit ";").
    change (lit " //") with (space :: lit "//").
    rewrite !startswith_cons, (N.eqb_sym space c).
    now destruct (c =? space)%N. }
  now rewrite E.
Qed.

(** What [_strip_comment] returns. *)
Lemma strip_comment_eq (raw : str) :
  _strip_comment raw
  = match first_of comment_seps (strip raw) with
    | Some p => rstrip (firstn p (strip raw))
    | None => strip raw
    end.
Proof.
  unfold _strip_comment.
  pose proof (clean_strip raw) as Hc.
  pose proof (strip_idem raw) as Hi.
  destruct (strip raw) as [|c t] eqn:E; [reflexivity|].
  rewrite (fold_cut _ comment_seps_shaped _ Hc).
  destruct (first_of comment_seps (c :: t)) as [p|]; [|assumption].
  rewrite strip_clean by now apply clean_rstrip, clean_firstn.
  apply rstrip_idem.
Qed.

Lemma first_token_after_Some (before : char -> bool) (s : str) (p : nat) :
  first_token_after before s = Some p ->
  starts_comment before (skipn p s) = true.
Proof.
  revert p. induction s as [|c t IH]; intros p; cbn [first_token_after].
  - cbn [starts_comment]. discriminate.
  - destruct (starts_comment before (c :: t)) eqn:E.
    + intros H. inversion H. exact E.
    + destruct (first_token_after before t) as [q|]; [|discriminate].
      intros H. inversion H. simpl. now apply IH.
Qed.

(** The first character of a trimmed line survives the cuts. *)
Lemma strip_comment_head (raw : str) (c : char) (t : str) :
  strip raw = c :: t -> exists t', _strip_comment raw = c :: t'.
Proof.
  intros E. rewrite strip_comment_eq, E.
  pose proof (strip_head _ _ _ E) as Hc.
  destruct (first_of comment_seps (c :: t)) as [p|] eqn:Ep; [|eauto].
  destruct (first_of_blank _ _ _ comment_seps_shaped Ep) as [r Hr].
  destruct p as [|p].
  - simpl in Hr. inversion Hr; subst. cbv in Hc. discriminate Hc.
  - cbn [firstn]. rewrite rstrip_keeps_head by assumption. eauto.
Qed.

(** C3, amended: [_strip_comment] trims the line, truncates it at the
    first place where a space (U+0020) is followed by [#], [;] or [//]
    and trims again; every place it truncates at is such a space, and
    a line without one is returned trimmed and whole. *)
Theorem strip_comment_truncates_at_space (raw : str) :
  _strip_comment raw = truncate_after is_space raw
  /\ (forall p,
        first_token_after is_space (strip raw) = Some p ->
        exists tok rest,
          In tok comment_tokens
          /\ skipn p (strip raw) = space :: tok ++ rest)
  /\ (first_token_after is_space (strip raw) = None ->
      _strip_comment raw = strip raw).
Proof.
  assert (E : _strip_comment raw = truncate_after is_space raw).
  { rewrite strip_comment_eq. unfold truncate_after.
    rewrite first_token_is_first_sep.
    destruct (first_of comment_seps (strip raw)); [|reflexivity].
    symmetry. apply strip_clean, clean_firstn, clean_strip. }
  split; [assumption|]. split.
  - intros p Hp. apply first_token_after_Some in Hp.
    destruct (skipn p (strip raw)) as [|c r]; [discriminate|].
    cbn [starts_comment] in Hp. apply andb_true_iff in Hp as [Hc Hr].
    apply N.eqb_eq in Hc. subst c.
    apply existsb_exists in Hr as (tok & Hin & Hst).
    apply startswith_inv in Hst as [rest ->]. now exists tok, rest.
  - intros Hn. rewrite E. unfold truncate_after. now rewrite Hn.
Qed.

End Normalizer.

Section LeadingIntroducer.

Context {rt : Runtime}.

(** C9: a trimmed line keeps its first character through
    [_strip_comment], so a line that begins with [#], [;] or [/] is
    not removed; [#ads.example.com] is returned as it is and classified
    as [DomainSuffix] of itself. *)
Theorem leading_introducer_is_kept :
  (forall raw c t,
      strip raw = c :: t -> exists t', _strip_comment raw = c :: t')
  /\ _strip_comment (lit "#ads.example.com") = lit "#ads.example.com"
  /\ classify (lit "#ads.example.com")
     = Ok (DomainSuffix (lit "#ads.example.com"))
  /\ classify_lines [lit "#ads.example.com"] no_lists
     = Ok (mk_lists [] [lit "#ads.example.com"] []).
Proof.
  split; [exact strip_comment_head|]. repeat split.
Qed.

End LeadingIntroducer.

(** ** The theorems at concrete inputs *)

Ltac not_in :=
  let H := fresh in intros H; vm_compute in H; intuition discriminate.

Ltac all_visible :=
  let c := fresh in let H := fresh in
  intros c H; vm_compute in H; intuition (subst; reflexivity).

Lemma payload_list_gives_entries_witness :
  entries (rt := sample_rt) payload_doc
  = Ok [lit "DOMAIN-SUFFIX,example.com"; lit "10.0.0.0/8"].
Proof.
  apply (proj1 (payload_list_gives_entries (rt := sample_rt) payload_doc
                  [(PyStr (lit "payload"),
                    PyList [PyStr (lit "DOMAIN-SUFFIX,example.com");
                            PyStr (lit "10.0.0.0/8")])]
                  [PyStr (lit "DOMAIN-SUFFIX,example.com");
                   PyStr (lit "10.0.0.0/8")]
                  eq_refl eq_refl)).
Defined.

(** C1 as stated fails: the loader returns a mapping whose key [rules]
    holds a list, and the entries are the lines of the text. *)
Lemma list_under_other_key_counterexample :
  ~ (forall (rt : Runtime) text d k items strs,
        safe_load text = Ok (PyDict d) ->
        dict_getitem d k = Ok (PyList items) ->
        all_str items = Ok strs ->
        entries text = Ok (map strip strs)).
Proof.
  intros H.
  specialize (H sample_rt rules_doc
                [(PyStr (lit "rules"), PyList [PyStr (lit "DOMAIN,a.com")])]
                (lit "rules") [PyStr (lit "DOMAIN,a.com")]
                [lit "DOMAIN,a.com"] eq_refl eq_refl eq_refl).
  vm_compute in H. discriminate H.
Qed.

Lemma bare_domain_is_suffix_witness :
  classify (rt := sample_rt) (lit "plain.example.org")
  = Ok (DomainSuffix (lit "plain.example.org")).
Proof.
  apply (bare_domain_is_suffix (rt := sample_rt)).
  - apply (contains_char dot). reflexivity.
  - all_visible.
  - not_in.
  - left. not_in.
Defined.

(** C2 as stated fails: [DOMAIN,example.com] is a normalized entry with
    a dot, no whitespace and no slash, and it is a [Domain] rule. *)
Lemma comma_line_counterexample :
  ~ (forall (rt : Runtime) line,
        line <> [] -> _strip_comment line = line ->
        In dot line ->
        (forall c, In c line -> isspace c = false) ->
        ~ In slash line ->
        classify line = Ok (DomainSuffix line)).
Proof.
  intros H.
  assert (E : classify (rt := sample_rt) (lit "DOMAIN,example.com")
              = Ok (DomainSuffix (lit "DOMAIN,example.com"))).
  { apply H.
    - discriminate.
    - reflexivity.
    - apply (contains_char dot). reflexivity.
    - all_visible.
    - not_in. }
  vm_compute in E. discriminate E.
Qed.

Lemma strip_comment_truncates_at_space_witness :
  _strip_comment (lit " a.com # x ; y") = lit "a.com"
  /\ (exists tok rest,
         In tok comment_tokens
         /\ skipn 5 (strip (lit " a.com # x ; y")) = space :: tok ++ rest)
  /\ _strip_comment (lit "http://a.com/x#y ") = lit "http://a.com/x#y".
Proof.
  destruct (strip_comment_truncates_at_space (lit " a.com # x ; y"))
    as (H1 & H2 & _).
  destruct (strip_comment_truncates_at_space (lit "http://a.com/x#y "))
    as (_ & _ & H3).
  split; [exact H1|]. split; [apply H2; reflexivity|].
  apply H3. reflexivity.
Defined.

(** C3 as stated fails: a tab is whitespace, and [_strip_comment] does
    not truncate at a [#] that follows a tab. *)
Lemma tab_before_token_counterexample :
  ~ (forall raw, _strip_comment raw = truncate_after isspace raw).
Proof.
  intros H. specialize (H (lit "a.com" ++ [9%N] ++ lit "#x")).
  vm_compute in H. discriminate H.
Qed.

Lemma type_value_classification_witness :
  classify (rt := sample_rt)
           (lit " domain-suffix " ++ comma :: lit " ads.example.net "
            ++ lit ",no-resolve")
  = Ok (DomainSuffix (lit "ads.example.net"))
  /\ classify (rt := sample_rt) (lit "DOMAIN-KEYWORD" ++ comma :: lit "foo")
     = Ok Unsupported.
Proof.
  destruct (type_value_classification (rt := sample_rt)) as [H1 H2].
  split.
  - destruct (H1 (lit " domain-suffix ") (lit " ads.example.net ")
                 (lit ",no-resolve")) as (_ & Hs & _).
    + not_in.
    + not_in.
    + right. now exists (lit "no-resolve").
    + discriminate.
    + apply Hs. reflexivity.
  - apply (H2 (lit "DOMAIN-KEYWORD") (lit "foo")).
    + not_in.
    + reflexivity.
    + not_in.
Defined.

(** C5 does not hold of the code: [str(x)] of line 59 is outside the
    [try], and for a payload whose element is an integer of more than
    4300 digits it raises [ValueError], which [parse_clash_or_plain]
    and the group loop let through. *)
Theorem parse_raises_on_long_integer :
  parse_clash_or_plain (rt := long_int_rt) long_int_doc = Raise ValueError
  /\ group_ruleset (rt := long_int_rt) [spec_example; long_int_doc]
     = Raise ValueError.
Proof. split; vm_compute; reflexivity. Qed.

Lemma per_source_lists_sorted_unique_witness :
  exists r,
    parse_clash_or_plain (rt := sample_rt) twice_doc = Ok r
    /\ StronglySorted Str.lt (suffixes r) /\ NoDup (suffixes r).
Proof.
  destruct (per_source_lists_sorted_unique (rt := sample_rt) twice_doc)
    as [H1 H2].
  destruct (H1 (splitlines twice_doc) eq_refl) as [r Hr].
  exists r. split; [exact Hr|].
  destruct (H2 r Hr) as (_ & _ & Hs & Hn & _). now split.
Defined.

Lemma group_lists_sorted_unique_witness :
  exists rs,
    group_ruleset (rt := sample_rt) [twice_doc; payload_doc] = Ok rs
    /\ count_occ (list_eq_dec N.eq_dec) (suffixes rs) (lit "example.com")
       = 1%nat.
Proof.
  destruct (group_lists_sorted_unique (rt := sample_rt)
              [twice_doc; payload_doc]) as [_ H].
  exists (mk_lists [] [lit "example.com"] [lit "10.0.0.0/8"]).
  split; [reflexivity|].
  destruct (H (mk_lists [] [lit "example.com"] [lit "10.0.0.0/8"]) eq_refl)
    as (_ & _ & _ & Hc).
  destruct (Hc twice_doc (mk_lists [] [lit "example.com"] [])
               (lit "example.com")) as (_ & Hs & _).
  - now left.
  - reflexivity.
  - apply Hs. now left.
Defined.

Lemma source_order_irrelevant_witness :
  group_ruleset (rt := sample_rt) [payload_doc; spec_example]
  = Ok (mk_lists
          [lit "example.com"]
          [lit "ads.example.net"; lit "example.com"; lit "plain.example.org"]
          [lit "1.2.3.0/24"; lit "10.0.0.0/8"]).
Proof.
  apply (proj1 (proj1 (source_order_irrelevant (rt := sample_rt) _ _
                         (perm_swap payload_doc spec_example [])) _)).
  reflexivity.
Defined.

Lemma leading_introducer_is_kept_witness :
  exists t, _strip_comment (lit "  ;ads.example.com ; x") = 59%N :: t.
Proof.
  apply (proj1 (leading_introducer_is_kept (rt := sample_rt))
               (lit "  ;ads.example.com ; x") 59%N
               (lit "ads.example.com ; x")).
  reflexivity.
Defined.

(** ** More about the normalizer *)

Section NormalForm.

Lemma first_of_cons (sep : str) (seps : list str) (s : str) :
  first_of (sep :: seps) s = min_opt (index_of sep s) (first_of seps s).
Proof.
  induction s as [|x t IH];
    rewrite (first_of_unfold (sep :: seps)), (first_of_unfold seps),
      index_of_unfold; cbn [existsb].
  - destruct (startswith [] sep), (existsb (startswith []) seps);
      reflexivity.
  - destruct (startswith (x :: t) sep);
      destruct (existsb (startswith (x :: t)) seps); cbn [orb].
    + reflexivity.
    + now destruct (option_map S (first_of seps t)).
    + destruct (option_map S (index_of sep t)); [|reflexivity].
      cbn [min_opt]. now rewrite Nat.min_0_r.
    + now rewrite IH, min_opt_S.
Qed.

Lemma first_of_None (seps : list str) (s : str) :
  first_of seps s = None <-> Forall (fun sep => index_of sep s = None) seps.
Proof.
  induction seps as [|sep seps IH].
  - rewrite first_of_nil. split; [constructor | reflexivity].
  - rewrite first_of_cons. split.
    + intros H. destruct (index_of sep s) eqn:E1;
        destruct (first_of seps s) eqn:E2; try discriminate.
      constructor; [assumption | now apply IH].
    + intros H. inversion H as [|? ? H1 H2]; subst.
      rewrite H1. apply IH in H2. now rewrite H2.
Qed.

Lemma first_of_least (seps : list str) (s : str) (p : nat) :
  first_of seps s = Some p ->
  forall sep j, In sep seps -> index_of sep s = Some j -> (p <= j)%nat.
Proof.
  revert p. induction seps as [|sep0 seps IH]; intros p.
  - now rewrite first_of_nil.
  - rewrite first_of_cons. intros H sep j [->|Hin] Hj.
    + rewrite Hj in H. destruct (first_of seps s); inversion H; lia.
    + destruct (first_of seps s) as [q|] eqn:Eq.
      * specialize (IH q eq_refl sep j Hin Hj).
        destruct (index_of sep0 s); inversion H; lia.
      * apply first_of_None in Eq.
        apply (proj1 (Forall_forall _ _) Eq) in Hin. congruence.
Qed.

(** After the cut no separator is left. *)
Lemma no_sep_after_cut (seps : list str) (s : str) (p : nat) :
  Forall shaped seps -> first_of seps s = Some p ->
  first_of seps (rstrip (firstn p s)) = None.
Proof.
  intros Hs Hp. apply first_of_None. apply Forall_forall. intros sep Hin.
  destruct (first_of_blank _ _ _ Hs Hp) as [r Hr].
  rewrite (index_of_cut sep (proj1 (Forall_forall _ _) Hs sep Hin)
             s p space r Hr eq_refl).
  destruct (index_of sep s) as [j|] eqn:Ej; [|reflexivity].
  pose proof (first_of_least _ _ _ Hp sep j Hin Ej) as Hle.
  destruct (Nat.ltb_spec j p); [lia | reflexivity].
Qed.

Lemma strip_comment_trimmed (raw : str) :
  strip (_strip_comment raw) = _strip_comment raw.
Proof.
  rewrite strip_comment_eq.
  destruct (first_of comment_seps (strip raw)); [|apply strip_idem].
  rewrite strip_clean by apply clean_rstrip, clean_firstn, clean_strip.
  apply rstrip_idem.
Qed.

Lemma strip_comment_no_sep (raw : str) :
  first_of comment_seps (_strip_comment raw) = None.
Proof.
  rewrite strip_comment_eq.
  destruct (first_of comment_seps (strip raw)) as [p|] eqn:E;
    [|assumption].
  now apply no_sep_after_cut; [apply comment_seps_shaped|].
Qed.

(** X1: [_strip_comment] is idempotent. *)
Theorem strip_comment_idempotent (raw : str) :
  _strip_comment (_strip_comment raw) = _strip_comment raw.
Proof.
  rewrite (strip_comment_eq (_strip_comment raw)).
  now rewrite strip_comment_trimmed, strip_comment_no_sep.
Qed.

(** X2: what [_strip_comment] returns has nothing left to trim and no
    space followed by [#], [;] or [//]. *)
Theorem strip_comment_normal_form (raw : str) :
  strip (_strip_comment raw) = _strip_comment raw
  /\ first_token_after is_space (_strip_comment raw) = None.
Proof.
  split; [apply strip_comment_trimmed|].
  rewrite first_token_is_first_sep. apply strip_comment_no_sep.
Qed.

Lemma lstrip_nil (s : str) :
  lstrip s = [] <-> Forall (fun c => isspace c = true) s.
Proof.
  induction s as [|c t IH]; simpl.
  - split; [constructor | reflexivity].
  - destruct (isspace c) eqn:E.
    + rewrite IH. split; [now constructor|].
      intros H. now inversion H.
    + split; [discriminate|]. intros H. inversion H. congruence.
Qed.

Lemma strip_nil (s : str) :
  strip s = [] <-> Forall (fun c => isspace c = true) s.
Proof.
  rewrite <- lstrip_nil. unfold strip.
  destruct (lstrip s) as [|c t] eqn:E; [easy|].
  rewrite rstrip_keeps_head by exact (lstrip_head _ _ _ E).
  split; discriminate.
Qed.

(** X3: [_strip_comment] returns the empty string, the signal to skip
    the line, exactly for the lines made of whitespace only; a line
    that is only a comment is not skipped by it. *)
Theorem strip_comment_empty_iff_blank (raw : str) :
  _strip_comment raw = [] <-> Forall (fun c => isspace c = true) raw.
Proof.
  rewrite <- strip_nil. split.
  - intros H. destruct (strip raw) as [|c t] eqn:E; [reflexivity|].
    destruct (strip_comment_head _ _ _ E) as [t' Ht]. congruence.
  - intros H. unfold _strip_comment. now rewrite H.
Qed.

Lemma rstrip_split (s : str) :
  exists w, s = rstrip s ++ w /\ Forall (fun c => isspace c = true) w.
Proof.
  induction s as [|c t (w & IH & Hw)]; [now exists []|].
  rewrite rstrip_cons. destruct (rstrip t) as [|x r].
  - destruct (isspace c) eqn:E.
    + exists (c :: t). split; [reflexivity|].
      constructor; [assumption|]. simpl in IH. now subst.
    + exists t. split; [reflexivity|]. simpl in IH. now subst.
  - exists w. split; [|assumption]. simpl in *. now f_equal.
Qed.

(** X4: [_strip_comment] returns the trimmed line or a proper prefix of
    it, and what it drops begins with whitespace. *)
Theorem strip_comment_prefix (raw : str) :
  _strip_comment raw = strip raw
  \/ exists w rest,
       isspace w = true
       /\ strip raw = _strip_comment raw ++ w :: rest.
Proof.
  rewrite strip_comment_eq.
  destruct (first_of comment_seps (strip raw)) as [p|] eqn:E;
    [right | now left].
  destruct (first_of_blank _ _ _ comment_seps_shaped E) as [r Hr].
  destruct (rstrip_split (firstn p (strip raw))) as (w & Hw & Hws).
  assert (H : strip raw
              = rstrip (firstn p (strip raw)) ++ w ++ space :: r).
  { rewrite <- (firstn_skipn p (strip raw)) at 1.
    rewrite Hr. rewrite Hw at 1. now rewrite <- app_assoc. }
  destruct w as [|x w].
  - now exists space, r.
  - exists x, (w ++ space :: r). split; [now inversion Hws | exact H].
Qed.

End NormalForm.

(** ** The pattern of a bare network *)

Section Pattern.

Context {rt : Runtime}.

Lemma span_spec (p : char -> bool) (s a b : str) :
  span p s = (a, b) ->
  s = a ++ b /\ Forall (fun c => p c = true) a
  /\ match b with [] => True | x :: _ => p x = false end.
Proof.
  revert a b. induction s as [|c t IH]; intros a b; simpl.
  - intros H. inversion H. repeat split. constructor.
  - destruct (p c) eqn:E.
    + destruct (span p t) as [a' b'] eqn:Es. intros H. inversion H; subst.
      destruct (IH _ _ eq_refl) as (H1 & H2 & H3).
      repeat split; [simpl; congruence | now constructor | assumption].
    + intros H. inversion H; subst. repeat split; [constructor | assumption].
Qed.

Lemma span_max (p : char -> bool) (a b : str) :
  Forall (fun c => p c = true) a ->
  match b with [] => True | x :: _ => p x = false end ->
  span p (a ++ b) = (a, b).
Proof.
  intros Ha Hb. induction Ha as [|c a Hc _ IH]; simpl.
  - destruct b as [|x b]; [reflexivity|]. simpl. now rewrite Hb.
  - now rewrite Hc, IH.
Qed.

Lemma re_digits_inv (lo hi : nat) (s r : str) :
  re_digits lo hi s = Some r ->
  exists d, s = d ++ r /\ digit_group lo hi d /\ stops r.
Proof.
  unfold re_digits. destruct (span is_digit s) as [d r'] eqn:E.
  destruct (Nat.leb_spec lo (length d)) as [Hlo|Hlo]; [|discriminate].
  destruct (Nat.leb_spec (length d) hi) as [Hhi|Hhi]; [|discriminate].
  intros H. inversion H; subst r'.
  destruct (span_spec _ _ _ _ E) as (H1 & H2 & H3).
  exists d. repeat split; assumption.
Qed.

Lemma re_digits_intro (lo hi : nat) (d r : str) :
  digit_group lo hi d -> stops r -> re_digits lo hi (d ++ r) = Some r.
Proof.
  intros (Hd & Hlo & Hhi) Hr. unfold re_digits.
  rewrite (span_max is_digit d r Hd Hr).
  destruct (Nat.leb_spec lo (length d)); [|lia].
  destruct (Nat.leb_spec (length d) hi); [|lia]. reflexivity.
Qed.

Lemma re_end_inv (r : str) : re_end r = true -> r = [] \/ r = [10%N].
Proof.
  destruct r as [|x r]; [auto|]. intros H. right. simpl in H.
  repeat match type of H with
         | match ?q with _ => _ end = true =>
             destruct q; try discriminate H
         end.
  reflexivity.
Qed.

Lemma re_end_stops (r : str) : r = [] \/ r = [10%N] -> stops r.
Proof. intros [->| ->]; [exact I | reflexivity]. Qed.

Lemma re_match_cidr_shape (line : str) :
  re_match_cidr line = true -> cidr_shape line.
Proof.
  unfold re_match_cidr. cbn [re_groups].
  destruct (re_digits 1 3 line) as [r1|] eqn:E1; [|discriminate].
  destruct (re_char dot r1) as [r2|] eqn:E2; [|discriminate].
  destruct (re_digits 1 3 r2) as [r3|] eqn:E3; [|discriminate].
  destruct (re_char dot r3) as [r4|] eqn:E4; [|discriminate].
  destruct (re_digits 1 3 r4) as [r5|] eqn:E5; [|discriminate].
  destruct (re_char dot r5) as [r6|] eqn:E6; [|discriminate].
  destruct (re_digits 1 3 r6) as [r7|] eqn:E7; [|discriminate].
  destruct (re_char slash r7) as [r8|] eqn:E8; [|discriminate].
  destruct (re_digits 1 2 r8) as [r9|] eqn:E9; [|discriminate].
  intros Hend. apply re_end_inv in Hend.
  apply re_digits_inv in E1 as (a & -> & Ha & _).
  apply re_char_eq in E2 as ->.
  apply re_digits_inv in E3 as (b & -> & Hb & _).
  apply re_char_eq in E4 as ->.
  apply re_digits_inv in E5 as (c & -> & Hc & _).
  apply re_char_eq in E6 as ->.
  apply re_digits_inv in E7 as (d & -> & Hd & _).
  apply re_char_eq in E8 as ->.
  apply re_digits_inv in E9 as (m & -> & Hm & _).
  exists a, b, c, d, m, r9. repeat split; try tauto;
    first [apply Ha | apply Hb | apply Hc | apply Hd | apply Hm].
Qed.

(** X5: the matcher accepts exactly the strings of the pattern
    [^\d{1,3}(\.\d{1,3}){3}/\d{1,2}$]. *)
Theorem re_match_cidr_iff_shape (line : str) :
  re_match_cidr line = true <-> cidr_shape line.
Proof.
  split; [apply re_match_cidr_shape|].
  intros (a & b & c & d & m & tail & -> & Ha & Hb & Hc & Hd & Hm & Ht).
  unfold re_match_cidr. cbn [re_groups].
  rewrite (re_digits_intro 1 3 a _ Ha) by reflexivity. cbn [re_char].
  rewrite N.eqb_refl, (re_digits_intro 1 3 b _ Hb) by reflexivity.
  cbn [re_char].
  rewrite N.eqb_refl, (re_digits_intro 1 3 c _ Hc) by reflexivity.
  cbn [re_char].
  rewrite N.eqb_refl, (re_digits_intro 1 3 d _ Hd) by reflexivity.
  cbn [re_char].
  rewrite N.eqb_refl, (re_digits_intro 1 2 m _ Hm)
    by now apply re_end_stops.
  now destruct Ht as [-> | ->].
Qed.

(** The characters of a string of the pattern. *)
Lemma cidr_shape_chars (line : str) (x : char) :
  cidr_shape line -> In x line ->
  is_digit x = true \/ x = dot \/ x = slash \/ x = 10%N.
Proof.
  intros (a & b & c & d & m & tail & -> & Ha & Hb & Hc & Hd & Hm & Ht) Hin.
  assert (D : forall lo hi g, digit_group lo hi g -> In x g ->
                            is_digit x = true).
  { intros lo hi g (Hg & _) Hx.
    exact (proj1 (Forall_forall _ _) Hg x Hx). }
  apply in_app_or in Hin as [Hin|[<-|Hin]]; [eauto | auto |].
  apply in_app_or in Hin as [Hin|[<-|Hin]]; [eauto | auto |].
  apply in_app_or in Hin as [Hin|[<-|Hin]]; [eauto | auto |].
  apply in_app_or in Hin as [Hin|[<-|Hin]]; [eauto | auto |].
  apply in_app_or in Hin as [Hin|Hin]; [eauto|].
  destruct Ht as [-> | ->]; [destruct Hin|].
  destruct Hin as [<-|[]]. auto.
Qed.

Lemma cidr_shape_head (line : str) :
  cidr_shape line -> exists x t, line = x :: t /\ is_digit x = true.
Proof.
  intros (a & b & c & d & m & tail & -> & (Ha & Hlo & _) & _).
  destruct a as [|x a]; [simpl in Hlo; lia|].
  exists x, (a ++ dot :: b ++ dot :: c ++ dot :: d ++ slash :: m ++ tail).
  split; [reflexivity | now inversion Ha].
Qed.

Lemma no_match_with (line : str) (x : char) :
  In x line -> is_digit x = false -> x <> dot -> x <> slash ->
  x <> 10%N -> re_match_cidr line = false.
Proof.
  intros Hin Hd H1 H2 H3.
  destruct (re_match_cidr line) eqn:E; [|reflexivity].
  apply re_match_cidr_shape in E.
  destruct (cidr_shape_chars _ _ E Hin) as [H|[H|[H|H]]]; congruence.
Qed.

(** X6: a line of the pattern of a bare network is classified as
    [IPNetwork] of itself. *)
Theorem bare_network_is_ip_network (line : str) :
  re_match_cidr line = true -> classify line = Ok (IPNetwork line).
Proof.
  intros H. unfold classify.
  assert (E : contains (lit ",") line = false).
  { apply (contains_char_false comma). intros Hin.
    pose proof (no_match_with line comma Hin) as Hno.
    rewrite Hno in H by (reflexivity || discriminate). discriminate H. }
  now rewrite E, H.
Qed.

(** X7: a line with a space and no comma is dropped, as are the lines
    of a hosts file. *)
Theorem spaced_line_is_dropped (line : str) :
  In space line -> ~ In comma line -> classify line = Ok Unsupported.
Proof.
  intros Hsp Hc. unfold classify.
  apply (contains_char_false comma) in Hc.
  change (contains (lit ",") line = false) in Hc. rewrite Hc.
  rewrite (no_match_with line space Hsp)
    by (reflexivity || discriminate).
  apply (contains_char space) in Hsp.
  change (contains (lit " ") line = true) in Hsp. rewrite Hsp.
  cbn [andb negb]. now rewrite andb_false_r.
Qed.

(** X8: a line that begins with [http] and has a slash, as a URL has,
    is dropped, with or without a comma. *)
Theorem url_line_is_dropped (rest : str) :
  In slash rest -> classify (lit "http" ++ rest) = Ok Unsupported.
Proof.
  intros Hs. unfold classify.
  rewrite startswith_app, andb_false_r.
  assert (E : re_match_cidr (lit "http" ++ rest) = false).
  { destruct (re_match_cidr (lit "http" ++ rest)) eqn:E; [|reflexivity].
    apply re_match_cidr_shape, cidr_shape_head in E
      as (x & t & Hx & Hd).
    inversion Hx; subst x. discriminate Hd. }
  rewrite E.
  assert (Hin : In slash (lit "http" ++ rest))
    by (apply in_or_app; now right).
  apply (contains_char slash) in Hin.
  change (contains (lit "/") (lit "http" ++ rest) = true) in Hin.
  rewrite Hin. cbn [negb]. now rewrite andb_false_r.
Qed.

(** X9: a line of a known type whose value trims to nothing is
    dropped. *)
Theorem empty_value_is_dropped (TYPE VALUE extra : str) :
  ~ In comma TYPE -> ~ In comma VALUE ->
  extra = [] \/ (exists e, extra = comma :: e) ->
  In (upper (strip TYPE))
     [lit "DOMAIN"; lit "DOMAIN-SUFFIX"; lit "IP-CIDR"; lit "IP-CIDR6"] ->
  strip VALUE = [] ->
  classify (TYPE ++ comma :: VALUE ++ extra) = Ok Unsupported.
Proof.
  intros HT HV Hex Hty Hv.
  rewrite classify_fields
    by (assumption || now apply rule_type_not_http).
  rewrite (first_field _ _ HV Hex), Hv. cbv zeta. cbn [truthy].
  repeat match goal with |- context [if ?b then _ else _] =>
    destruct b end; reflexivity.
Qed.

End Pattern.

(** ** The values in the lists *)

Section Values.

Context {rt : Runtime}.

Lemma getitem_In {A} (xs : list A) (i : nat) (x : A) :
  getitem xs i = Ok x -> In x xs.
Proof.
  unfold getitem. destruct (nth_error xs i) eqn:E; [|discriminate].
  intros H. inversion H; subst. eapply nth_error_In, E.
Qed.

Lemma truthy_strip_good (x : str) :
  truthy (strip x) = true -> good_value (strip x).
Proof.
  intros H. split; [|apply strip_idem].
  intros E. rewrite E in H. discriminate H.
Qed.

(** A rule classified from a trimmed, non-empty line carries a good
    value. *)
Lemma classify_good (line : str) (r : ClassifiedRule) (v : str) :
  good_value line -> classify line = Ok r ->
  r = Domain v \/ r = DomainSuffix v \/ r = IPNetwork v ->
  good_value v.
Proof.
  intros Hline. unfold classify.
  destruct (contains (lit ",") line && negb (startswith line (lit "http"))).
  - destruct (getitem (map strip (split line comma)) 0) as [p0|];
      [|discriminate]. cbn [bind].
    assert (Hv : forall w,
               (if 1 <? Z.of_nat (length (map strip (split line comma)))
                then getitem (map strip (split line comma)) 1
                else Ok []) = Ok w ->
               truthy w = true -> good_value w).
    { intros w Hw Ht.
      destruct (1 <? Z.of_nat (length (map strip (split line comma)))).
      - apply getitem_In, in_map_iff in Hw as (x & <- & _).
        now apply truthy_strip_good.
      - inversion Hw; subst. discriminate Ht. }
    destruct (if 1 <? Z.of_nat (length (map strip (split line comma)))
              then getitem (map strip (split line comma)) 1
              else Ok []) as [w|]; [|discriminate].
    cbn [bind]. specialize (Hv w eq_refl).
    repeat match goal with |- context [if member ?a ?b then _ else _] =>
      destruct (member a b) end;
      destruct (truthy w); intros H [E|[E|E]]; subst r;
      inversion H; subst; auto.
  - repeat match goal with |- context [if ?b then _ else _] =>
      destruct b end;
      intros H [E|[E|E]]; subst r; inversion H; subst; assumption.
Qed.

Lemma append_rule_good (acc : lists) (r : ClassifiedRule) :
  lists_good acc ->
  (forall v, r = Domain v \/ r = DomainSuffix v \/ r = IPNetwork v ->
             good_value v) ->
  lists_good (append_rule acc r).
Proof.
  intros (Hd & Hs & Hc) Hr.
  destruct r as [v|v|v|]; cbn [append_rule]; repeat split; cbn;
    try assumption; apply Forall_app; split; try assumption;
    constructor; auto.
Qed.

Lemma strip_comment_good (raw : str) :
  truthy (_strip_comment raw) = true -> good_value (_strip_comment raw).
Proof.
  intros H. split; [|apply strip_comment_trimmed].
  intros E. rewrite E in H. discriminate H.
Qed.

Lemma classify_lines_good (lines : list str) (acc r : lists) :
  lists_good acc -> classify_lines lines acc = Ok r -> lists_good r.
Proof.
  revert acc. induction lines as [|raw rest IH]; intros acc Hacc;
    cbn [classify_lines].
  - intros H. now inversion H; subst.
  - destruct (truthy (_strip_comment raw)) eqn:Et; [|now apply IH].
    destruct (classify (_strip_comment raw)) as [c|] eqn:Ec;
      [|discriminate].
    cbn [bind]. apply IH. apply append_rule_good; [assumption|].
    intros v Hv. eapply classify_good; eauto using strip_comment_good.
Qed.

Lemma canon_Forall (P : str -> Prop) (xs : list str) :
  Forall P xs -> Forall P (canon xs).
Proof.
  intros H. apply Forall_forall. intros x Hx.
  exact (proj1 (Forall_forall _ _) H x (proj1 (canon_In xs x) Hx)).
Qed.

Lemma parsed_good (text : str) : lists_good (parsed text).
Proof.
  unfold parsed.
  destruct (parse_clash_or_plain text) as [r|] eqn:E;
    [|repeat split; constructor].
  apply parse_inv in E as (ls & acc & _ & Hacc & ->).
  assert (Hg : lists_good acc).
  { apply (classify_lines_good ls no_lists); [|assumption].
    repeat split; constructor. }
  destruct Hg as (Hd & Hs & Hc).
  repeat split; now apply canon_Forall.
Qed.

(** X10: every string in the lists returned for a source, and in the
    lists of a group, is non-empty and has no whitespace at either
    end. *)
Theorem values_are_trimmed_and_non_empty :
  (forall text r, parse_clash_or_plain text = Ok r -> lists_good r)
  /\ (forall texts rs, group_ruleset texts = Ok rs -> lists_good rs).
Proof.
  split.
  - intros text r H. rewrite (parse_parsed _ _ H). apply parsed_good.
  - intros texts rs H. pose proof (group_ruleset_inv _ _ H) as Hret.
    rewrite (group_ruleset_ok _ Hret) in H. inversion H; subst rs.
    repeat split; cbn; apply canon_Forall, Forall_flat_map,
      Forall_forall; intros t _; apply parsed_good.
Qed.

(** *** Entries one by one *)

Lemma classify_lines_fold (lines : list str) (acc : lists) :
  classify_lines lines acc
  = Ok (fold_left append_rule (map rule_of lines) acc).
Proof.
  revert acc. induction lines as [|raw rest IH]; intros acc;
    [reflexivity|].
  cbn [classify_lines map fold_left]. unfold rule_of at 2.
  destruct (truthy (_strip_comment raw)); [|cbn [append_rule]; apply IH].
  destruct (classify_total (_strip_comment raw)) as [r ->].
  cbn [bind]. apply IH.
Qed.

Lemma fold_append_rule (rs : list ClassifiedRule) (acc : lists) :
  fold_left append_rule rs acc
  = mk_lists (domains acc ++ flat_map rule_domains rs)
             (suffixes acc ++ flat_map rule_suffixes rs)
             (cidrs acc ++ flat_map rule_cidrs rs).
Proof.
  revert acc. induction rs as [|r rs IH]; intros acc.
  - cbn. rewrite !app_nil_r. now destruct acc.
  - cbn [fold_left flat_map]. rewrite IH.
    destruct r; cbn; now rewrite <- ?app_assoc.
Qed.

Lemma In_rules (f : ClassifiedRule -> list str) (lines : list str)
      (v : str) :
  In v (flat_map f (map rule_of lines))
  <-> exists raw, In raw lines /\ In v (f (rule_of raw)).
Proof.
  rewrite in_flat_map. split.
  - intros (r & Hr & Hv). apply in_map_iff in Hr as (raw & <- & Hraw).
    now exists raw.
  - intros (raw & Hraw & Hv). exists (rule_of raw).
    split; [now apply in_map | assumption].
Qed.

(** X11: the lists of a source depend on which entries it has, not on
    their order or on how often each occurs. *)
Theorem entry_order_and_repeats_irrelevant (lines lines' : list str) :
  (forall raw, In raw lines <-> In raw lines') ->
  exists a a',
    classify_lines lines no_lists = Ok a
    /\ classify_lines lines' no_lists = Ok a'
    /\ dedup a = dedup a'.
Proof.
  intros H. do 2 eexists.
  split; [apply classify_lines_fold|].
  split; [apply classify_lines_fold|].
  rewrite !fold_append_rule. unfold dedup. cbn.
  f_equal; apply canon_ext; intros v; rewrite !In_rules;
    split; intros (raw & Hraw & Hv); exists raw;
    (split; [now apply H | assumption]).
Qed.

(** X12: the loop run on two sequences of entries, one after the
    other, appends the lists of the second to those of the first. *)
Theorem entries_compose (l1 l2 : list str) :
  exists a1 a2,
    classify_lines l1 no_lists = Ok a1
    /\ classify_lines l2 no_lists = Ok a2
    /\ classify_lines (l1 ++ l2) no_lists
       = Ok (mk_lists (domains a1 ++ domains a2)
                      (suffixes a1 ++ suffixes a2)
                      (cidrs a1 ++ cidrs a2)).
Proof.
  do 2 eexists.
  split; [apply classify_lines_fold|].
  split; [apply classify_lines_fold|].
  rewrite classify_lines_fold, !fold_append_rule, map_app,
    !flat_map_app.
  reflexivity.
Qed.

End Values.

(** ** Texts that are not a rule provider *)

Section Fallback.

Context {rt : Runtime}.

Lemma dict_contains_getitem (d : list (pyobj * pyobj)) (k : str) :
  dict_contains d k = false -> dict_getitem d k = Raise KeyError.
Proof.
  unfold dict_contains, dict_getitem. intros H.
  destruct (List.find (fun kv => key_is k (fst kv)) d) as [kv|] eqn:E;
    [|reflexivity].
  apply find_some in E as [Hin Hk].
  assert (Hex : existsb (fun kv => key_is k (fst kv)) d = true)
    by (apply existsb_exists; now exists kv).
  congruence.
Qed.

(** X13: when the loaded document is not a mapping, or is a mapping
    without the key [payload], or with a [payload] that is not a list,
    the entries are the lines of the text; a lookup of the missing key
    would raise, and is not made. *)
Theorem not_a_provider_falls_back (text : str) :
  (forall y, safe_load text = Ok y -> (forall d, y <> PyDict d) ->
             entries text = Ok (splitlines text))
  /\ (forall d, safe_load text = Ok (PyDict d) ->
                dict_contains d (lit "payload") = false ->
                dict_getitem d (lit "payload") = Raise KeyError
                /\ entries text = Ok (splitlines text))
  /\ (forall d v, safe_load text = Ok (PyDict d) ->
                  dict_getitem d (lit "payload") = Ok v ->
                  (forall items, v <> PyList items) ->
                  entries text = Ok (splitlines text)).
Proof.
  unfold entries, load_payload. split; [|split].
  - intros y Hy Hn. rewrite Hy. cbn [bind].
    destruct y; try reflexivity. now destruct (Hn items).
  - intros d Hd Hc. split; [now apply dict_contains_getitem|].
    rewrite Hd. cbn [bind]. now rewrite Hc.
  - intros d v Hd Hv Hn. rewrite Hd. cbn [bind].
    rewrite (dict_getitem_contains _ _ _ Hv), Hv. cbn [bind].
    destruct v; try reflexivity. now destruct (Hn items).
Qed.

End Fallback.

(** ** The JSON of a ruleset *)

Section Json.

Lemma map_JStr_inj (l l' : list str) : map JStr l = map JStr l' -> l = l'.
Proof.
  revert l'. induction l as [|x l IH]; intros [|y l'] H;
    try discriminate; [reflexivity|].
  inversion H. f_equal. now apply IH.
Qed.

(** X14: the JSON of a ruleset determines its three lists, though the
    empty ones are left out of it. *)
Theorem build_ruleset_json_injective (d s c d' s' c' : list str) :
  build_ruleset_json d s c = build_ruleset_json d' s' c' ->
  d = d' /\ s = s' /\ c = c'.
Proof.
  unfold build_ruleset_json.
  destruct d, s, c, d', s', c'; cbn; intros H;
    inversion H; repeat split; try reflexivity;
    apply map_JStr_inj; cbn; congruence.
Qed.

End Json.

(** ** [main] *)

Section MainFacts.

Context {rt : Runtime} {world : World}.


Lemma fetch_all_raise (pre post : list pyobj) (x : pyobj) (url : str)
      (e : exn) (all : lists) :
  Forall (fun u => exists t, fetched u t) pre ->
  py_str x = Ok url -> fetch url = Raise e ->
  exists e',
    fetch_all (pre ++ x :: post) all = Raise e'
    /\ (Forall (fun u => exists t, fetched u t /\ returns t) pre ->
        e' = e).
Proof.
  intros Hpre Hx Hf. revert all.
  induction Hpre as [|u pre (t & url' & Hu & Ht) _ IH]; intros all.
  - exists e. cbn [app fetch_all]. rewrite Hx. cbn [bind]. now rewrite Hf.
  - cbn [app fetch_all]. rewrite Hu. cbn [bind]. rewrite Ht. cbn [bind].
    destruct (parse_clash_or_plain t) as [r|e1] eqn:Ep; cbn [bind].
    + destruct (IH (mk_lists (domains all ++ domains r)
                             (suffixes all ++ suffixes r)
                             (cidrs all ++ cidrs r))) as (e' & He & Himp).
      exists e'. split; [exact He|].
      intros Hall. inversion Hall; subst. now apply Himp.
    + exists e1. split; [reflexivity|].
      intros Hall. inversion Hall as [|? ? (t' & (url2 & Hu2 & Ht2) & r & Hr)];
        subst.
      rewrite Hu in Hu2. inversion Hu2; subst url2.
      rewrite Ht in Ht2. inversion Ht2; subst t'. congruence.
Qed.

Lemma groups_loop_inv (items : list (pyobj * pyobj)) :
  forall done fs fs' out,
    groups_loop items done fs = (fs', out) ->
    exists ws tail,
      fs' = fs ++ ws ++ tail /\ Forall ruleset_file ws
      /\ match out with
         | Done done' =>
             tail = []
             /\ exists es, done' = done ++ es /\ Forall2 entry_matches es ws
         | Failed _ => left_broken tail
         end.
Proof.
  assert (Stop : forall fs : files,
             exists ws tail,
               fs = fs ++ ws ++ tail /\ Forall ruleset_file ws
               /\ left_broken tail).
  { intros fs. exists [], []. rewrite app_nil_r.
    repeat split; [constructor | now left]. }
  induction items as [|[tag urls] rest IH]; intros done fs fs' out H.
  - inversion H; subst. exists [], []. rewrite app_nil_r.
    repeat split; [constructor|]. exists []. now rewrite app_nil_r.
  - cbn [groups_loop] in H.
    destruct urls as [s|z|[|u us]|d|l|t]; try (now apply IH in H).
    unfold io_bind, lift, write in H.
    destruct (fetch_all (u :: us) no_lists) as [all|e];
      [|inversion H; subst; exact (Stop _)].
    destruct (file_name tag) as [name|e] eqn:En;
      [|inversion H; subst; exact (Stop _)].
    destruct (open_w (OutJson name)) as [|e];
      [|inversion H; subst; exact (Stop _)].
    destruct (dump _ _).
    + apply IH in H as (ws & tail & -> & Hws & Hout).
      eexists (_ :: ws), tail. rewrite <- app_assoc. split; [reflexivity|].
      split; [constructor; [now do 2 eexists | assumption]|].
      destruct out as [done'|f]; [|assumption].
      destruct Hout as (-> & es & -> & Hes). split; [reflexivity|].
      eexists (_ :: es). rewrite <- app_assoc. split; [reflexivity|].
      constructor; [|assumption].
      exists (dedup all), name. cbn.
      repeat split; try assumption; try reflexivity; try discriminate;
        apply canon_strict.
    + inversion H; subst. eexists [], [_].
      repeat split; [constructor|]. right. now do 2 eexists.
Qed.

(** X15: when [main] returns, it has written one ruleset file for each
    item of the index, in the same order, and the index last; the item
    names the file, its counts are the lengths of the three lists in
    the file, and those lists are strictly increasing. *)
Theorem main_files_match_index (fs0 fs : files) :
  main fs0 = (fs, Done tt) ->
  exists m ws,
    fs = fs0 ++ ws ++ [(IndexJson, Index m)]
    /\ generated_at m = time_now
    /\ Forall2 entry_matches (sets m) ws.
Proof.
  unfold main, io_bind, lift, write, io_fail.
  destruct (makedirs OutJsonDir); [|discriminate].
  destruct load_sources as [[s|z|l|items|l|t]|]; try discriminate.
  destruct (groups_loop items [] fs0) as [fs1 [done|f]] eqn:E;
    [|discriminate].
  destruct (makedirs OutputDir); [|discriminate].
  destruct (open_w IndexJson); [|discriminate].
  destruct (dump _ _); [|discriminate].
  intros H. inversion H; subst.
  apply groups_loop_inv in E as (ws & tail & -> & _ & -> & es & -> & Hes).
  exists (mk_meta time_now es), ws. rewrite app_nil_r, <- app_assoc.
  repeat split. exact Hes.
Qed.


(** X17: a list of sources that the GET returns and the loader reads
    is used as it is, and a list that is not a mapping then fails the
    run with [RuntimeError] before anything is written, whatever the
    local copy holds: the local copy is read only when the GET or the
    loader raises. *)
Theorem remote_sources_not_a_mapping (fs0 : files) (text : str) (y : pyobj) :
  makedirs OutJsonDir = Ok tt ->
  get_sources = Ok text -> safe_load text = Ok y ->
  (forall items, y <> PyDict items) ->
  load_sources = Ok y /\ main fs0 = (fs0, Failed RuntimeError).
Proof.
  intros Hm Hg Hl Hn.
  assert (E : load_sources = Ok y)
    by (unfold load_sources; now rewrite Hg; cbn [bind]; rewrite Hl).
  split; [assumption|].
  unfold main, io_bind, lift, io_fail. rewrite Hm, E.
  destruct y; try reflexivity. now destruct (Hn items).
Qed.

(** X18: when the GET of the list raises, or the loader raises on what
    it returned, the list is what the loader reads from the local
    copy, and an exception raised there is not caught. *)
Theorem sources_fall_back_to_local :
  (forall e, get_sources = Raise e ->
             load_sources = (text <- read_local ;; safe_load text))
  /\ (forall text e, get_sources = Ok text -> safe_load text = Raise e ->
                    load_sources = (text <- read_local ;; safe_load text))
  /\ (forall fs0 e, makedirs OutJsonDir = Ok tt ->
                   load_sources = Raise e ->
                   main fs0 = (fs0, Failed (Uncaught e))).
Proof.
  unfold load_sources. repeat split.
  - intros e H. now rewrite H.
  - intros text e Hg Hl. rewrite Hg. cbn [bind]. now rewrite Hl.
  - intros fs0 e Hm H. unfold main, io_bind, lift, load_sources.
    now rewrite Hm, H.
Qed.

(** X19: a group whose URLs are not a list, or are an empty list, is
    passed over: the loop does what it does without that group. *)
Theorem skipped_group_leaves_no_trace
        (before after : list (pyobj * pyobj)) (tag urls : pyobj)
        (done : list (pyobj * set_meta)) (fs : files) :
  skipped urls ->
  groups_loop (before ++ (tag, urls) :: after) done fs
  = groups_loop (before ++ after) done fs.
Proof.
  intros Hs. revert done fs.
  induction before as [|[tag0 urls0] before IH]; intros done fs.
  - cbn [app groups_loop].
    destruct urls as [s|z|[|u us]|d|l|t]; try reflexivity.
    now destruct (Hs u us).
  - cbn [app groups_loop].
    destruct urls0 as [s|z|[|u us]|d|l|t]; try apply IH.
    unfold io_bind.
    destruct (lift (fetch_all (u :: us) no_lists) fs) as [fs1 [all|f]];
      [|reflexivity].
    destruct (lift (file_name tag0) fs1) as [fs2 [name|f]];
      [|reflexivity].
    destruct (write _ _ fs2) as [fs3 [[]|f]]; [apply IH | reflexivity].
Qed.

(** X20: when [fetch] raises for a URL of a group, an exception leaves
    the loop and nothing is written for that group or for the groups
    after it: no source is skipped.  The exception is that of the
    first URL for which [fetch] raises, when the texts fetched before
    it were parsed. *)
Theorem fetch_failure_aborts
        (tag : pyobj) (pre post : list pyobj) (x : pyobj) (url : str)
        (e : exn) (rest : list (pyobj * pyobj))
        (done : list (pyobj * set_meta)) (fs : files) :
  Forall (fun u => exists t, fetched u t) pre ->
  py_str x = Ok url -> fetch url = Raise e ->
  exists e',
    groups_loop ((tag, PyList (pre ++ x :: post)) :: rest) done fs
    = (fs, Failed (Uncaught e'))
    /\ (Forall (fun u => exists t, fetched u t /\ returns t) pre ->
        e' = e).
Proof.
  intros Hpre Hx Hf.
  destruct (fetch_all_raise pre post x url e no_lists Hpre Hx Hf)
    as (e' & H & Himp).
  exists e'. split; [|exact Himp].
  cbn [groups_loop].
  destruct (pre ++ x :: post) as [|u us] eqn:E;
    [now destruct pre|].
  unfold io_bind, lift. now rewrite H.
Qed.


End MainFacts.

(** ** The further theorems at concrete inputs *)

Lemma strip_comment_empty_iff_blank_witness :
  _strip_comment [32%N; 9%N; 32%N] = [].
Proof.
  apply (proj2 (strip_comment_empty_iff_blank [32%N; 9%N; 32%N])).
  now repeat constructor.
Defined.

Lemma re_match_cidr_iff_shape_witness :
  re_match_cidr (rt := sample_rt) (lit "1.2.3.0/24") = true.
Proof.
  apply (proj2 (re_match_cidr_iff_shape (rt := sample_rt) (lit "1.2.3.0/24"))).
  exists (lit "1"), (lit "2"), (lit "3"), (lit "0"), (lit "24"), [].
  unfold digit_group.
  repeat split; try (now repeat constructor); cbn; lia.
Defined.

Lemma bare_network_is_ip_network_witness :
  classify (rt := sample_rt) (lit "10.0.0.0/8")
  = Ok (IPNetwork (lit "10.0.0.0/8")).
Proof.
  apply (bare_network_is_ip_network (rt := sample_rt)). reflexivity.
Defined.

Lemma spaced_line_is_dropped_witness :
  classify (rt := sample_rt) (lit "0.0.0.0 ads.example.com")
  = Ok Unsupported.
Proof.
  apply (spaced_line_is_dropped (rt := sample_rt)).
  - apply (contains_char space). reflexivity.
  - not_in.
Defined.

Lemma url_line_is_dropped_witness :
  classify (rt := sample_rt) (lit "http" ++ lit "://example.com/a,b.txt")
  = Ok Unsupported.
Proof.
  apply (url_line_is_dropped (rt := sample_rt)).
  apply (contains_char slash). reflexivity.
Defined.

Lemma empty_value_is_dropped_witness :
  classify (rt := sample_rt) (lit "domain" ++ comma :: lit "  " ++ [])
  = Ok Unsupported.
Proof.
  apply (empty_value_is_dropped (rt := sample_rt)).
  - not_in.
  - not_in.
  - now left.
  - now left.
  - reflexivity.
Defined.

Lemma entry_order_and_repeats_irrelevant_witness :
  exists a a',
    classify_lines (rt := sample_rt) [lit "b.com"; lit "a.com"] no_lists
    = Ok a
    /\ classify_lines (rt := sample_rt)
         [lit "a.com"; lit "b.com"; lit "a.com"] no_lists
       = Ok a'
    /\ dedup a = dedup a'.
Proof.
  apply (entry_order_and_repeats_irrelevant (rt := sample_rt)).
  intros raw. cbn. tauto.
Defined.

Lemma not_a_provider_falls_back_witness :
  entries (rt := sample_rt_main) (lit "not found")
  = Ok (splitlines (lit "not found"))
  /\ entries (rt := sample_rt_main) rules_doc = Ok (splitlines rules_doc)
  /\ entries (rt := sample_rt_main) (lit "payload: none")
     = Ok (splitlines (lit "payload: none")).
Proof.
  split; [|split].
  - apply (proj1 (not_a_provider_falls_back (rt := sample_rt_main)
                    (lit "not found")) (PyStr (lit "not found")));
      [reflexivity | discriminate].
  - apply (proj1 (proj2 (not_a_provider_falls_back (rt := sample_rt_main)
                           rules_doc))
                 [(PyStr (lit "rules"),
                   PyList [PyStr (lit "DOMAIN,a.com")])]);
      reflexivity.
  - apply (proj2 (proj2 (not_a_provider_falls_back (rt := sample_rt_main)
                           (lit "payload: none")))
                 [(PyStr (lit "payload"), PyStr (lit "none"))]
                 (PyStr (lit "none")));
      [reflexivity | reflexivity | discriminate].
Defined.

Lemma build_ruleset_json_injective_witness :
  [lit "a.com"] = [lit "a.com"] /\ @nil str = [] /\ [lit "10.0.0.0/8"]
  = [lit "10.0.0.0/8"].
Proof.
  apply (build_ruleset_json_injective [lit "a.com"] [] [lit "10.0.0.0/8"]).
  reflexivity.
Defined.

Lemma main_files_match_index_witness :
  exists m ws,
    fst (main (rt := sample_rt_main) (world := sample_world) [])
    = [] ++ ws ++ [(IndexJson, Index m)]
    /\ generated_at m = 1700000000
    /\ Forall2 (entry_matches (rt := sample_rt_main)) (sets m) ws.
Proof.
  rewrite main_sample.
  exact (main_files_match_index (rt := sample_rt_main)
           (world := sample_world) [] _ main_sample).
Defined.


Lemma remote_sources_not_a_mapping_witness :
  main (rt := sample_rt_main) (world := remote_world) []
  = ([], Failed RuntimeError).
Proof.
  apply (proj2 (remote_sources_not_a_mapping (rt := sample_rt_main)
                  (world := remote_world) [] (lit "not found")
                  (PyStr (lit "not found")) eq_refl eq_refl eq_refl
                  ltac:(discriminate))).
Defined.

Lemma sources_fall_back_to_local_witness :
  load_sources (rt := sample_rt_main) (world := sample_world)
  = (text <- Ok sources_doc ;; safe_load (Runtime := sample_rt_main) text).
Proof.
  apply (proj1 (sources_fall_back_to_local (rt := sample_rt_main)
                  (world := sample_world)) OtherError).
  reflexivity.
Defined.

Lemma skipped_group_leaves_no_trace_witness :
  groups_loop (rt := sample_rt_main) (world := sample_world)
    ([(PyStr (lit "ads"), PyList [PyStr (lit "u1")])]
     ++ (PyStr (lit "none"), PyList []) :: []) [] []
  = groups_loop (rt := sample_rt_main) (world := sample_world)
      ([(PyStr (lit "ads"), PyList [PyStr (lit "u1")])] ++ []) [] [].
Proof.
  apply (skipped_group_leaves_no_trace (rt := sample_rt_main)
           (world := sample_world)).
  intros u us. discriminate.
Defined.

Lemma fetch_failure_aborts_witness :
  exists e',
    groups_loop (rt := sample_rt_main) (world := sample_world)
      [(PyStr (lit "ads"),
        PyList ([PyStr (lit "u1")] ++ PyStr (lit "u3")
                :: [PyStr (lit "u2")]))]
      [] []
    = ([], Failed (Uncaught e'))
    /\ e' = OtherError.
Proof.
  destruct (fetch_failure_aborts (rt := sample_rt_main)
              (world := sample_world) (PyStr (lit "ads"))
              [PyStr (lit "u1")] [PyStr (lit "u2")] (PyStr (lit "u3"))
              (lit "u3") OtherError [] [] [])
    as (e' & H & Himp).
  - constructor; [|constructor].
    exists spec_example, (lit "u1"). now split.
  - reflexivity.
  - reflexivity.
  - exists e'. split; [exact H|]. apply Himp.
    constructor; [|constructor].
    exists spec_example. split; [exists (lit "u1"); now split|].
    eexists. vm_compute. reflexivity.
Defined.


Lemma values_are_trimmed_and_non_empty_witness :
  lists_good (mk_lists [] [lit "example.com"] [lit "10.0.0.0/8"]).
Proof.
  apply (proj1 (values_are_trimmed_and_non_empty (rt := sample_rt))
               payload_doc).
  reflexivity.
Defined.

Lemma parser_raises_only_from_str_witness :
  returns (rt := sample_rt) spec_example
  /\ exists items,
       load_payload (rt := long_int_rt) long_int_doc = Ok (Some items)
       /\ payload_lines (rt := long_int_rt) items = Raise ValueError.
Proof.
  split.
  - apply (proj1 (parser_raises_only_from_str (rt := sample_rt)
                    spec_example) ParseError).
    reflexivity.
  - apply (proj2 (proj2 (parser_raises_only_from_str (rt := long_int_rt)
                           long_int_doc)) ValueError).
    vm_compute. reflexivity.
Defined.
